(** * jantar: hook registry, template pipeline and validation helpers

    A shallow embedding of [template.go] (package jantar), of the hook
    registry it embeds ([hooks], [registerHook], [getHooks], [AddHook]) and
    of the validation helpers, followed by the properties proved about them.

    Conventions of the embedding:
    - a Go [int] is a 64-bit two's-complement integer, carried as a [Z] with
      the wrap-around of [+] and [-] written out ([wrap]);
    - a Go [string] is a byte string ([string], a list of [ascii]);
    - a map is a [gmap]; a nil map is [None] where the code tells nil and
      allocated maps apart;
    - a call that can panic returns an [outcome];
    - mutation through a pointer is explicit state passing. *)

From Stdlib Require Import ZArith String Ascii List Lia DecimalString.
From stdpp Require Import base option gmap strings list.

Local Open Scope string_scope.
Local Open Scope Z_scope.

(** ** Outcomes of calls that may panic *)

Inductive outcome (A : Type) : Type :=
| Done (a : A)
| Panic (msg : string).
Arguments Done {A} a.
Arguments Panic {A} msg.

#[export] Instance outcome_ret : MRet outcome := fun _ a => Done a.
#[export] Instance outcome_bind : MBind outcome := fun _ _ k o =>
  match o with
  | Done a => k a
  | Panic m => Panic m
  end.

(** ** Machine integers *)

Definition wrap (z : Z) : Z := (z + 2 ^ 63) mod 2 ^ 64 - 2 ^ 63.

(** ** Package [strings] (the functions the code calls) *)

Module GoStrings.

Definition lower_byte (c : ascii) : ascii :=
  let n := N_of_ascii c in
  if ((65 <=? n) && (n <=? 90))%N then ascii_of_N (n + 32) else c.

(** [strings.ToLower] on the ASCII range; bytes above 127 are left as
    they are. *)
Fixpoint ToLower (s : string) : string :=
  match s with
  | EmptyString => EmptyString
  | String c s' => String (lower_byte c) (ToLower s')
  end.

(** [strings.Replace(s, old, new, -1)] for one-byte [old] and [new]. *)
Fixpoint Replace (s : string) (old new : ascii) : string :=
  match s with
  | EmptyString => EmptyString
  | String c s' =>
      String (if Ascii.eqb c old then new else c) (Replace s' old new)
  end.

Definition HasPrefix (s pre : string) : bool := String.prefix pre s.

Fixpoint HasSuffix (s suf : string) : bool :=
  if String.eqb s suf then true
  else match s with
       | EmptyString => false
       | String _ s' => HasSuffix s' suf
       end.

Fixpoint Contains (s sub : string) : bool :=
  if String.prefix sub s then true
  else match s with
       | EmptyString => false
       | String _ s' => Contains s' sub
       end.

(** [s[n:]]; out of range is a run-time panic. *)
Fixpoint slice_from (s : string) (n : nat) {struct n} : outcome string :=
  match n, s with
  | O, _ => Done s
  | S n', String _ s' => slice_from s' n'
  | S _, EmptyString => Panic "slice bounds out of range"
  end.

(** [s[:n]]; out of range is a run-time panic. *)
Fixpoint slice_to (s : string) (n : nat) {struct n} : outcome string :=
  match n, s with
  | O, _ => Done EmptyString
  | S n', String c s' => r ← slice_to s' n'; Done (String c r)
  | S _, EmptyString => Panic "slice bounds out of range"
  end.

End GoStrings.

(** ** Package [fmt]: the verbs the code uses *)

Module Fmt.

Inductive arg : Type :=
| AStr (s : string)
| AInt (z : Z).

(** [%d] of an int. *)
Definition itoa (z : Z) : string := NilZero.string_of_int (Z.to_int z).

Definition verb (v : ascii) (a : option arg) : string :=
  match a with
  | None => "%!" ++ String v "(MISSING)"
  | Some (AStr s) =>
      if Ascii.eqb v "s" then s else "%!" ++ String v ("(string=" ++ s ++ ")")
  | Some (AInt z) =>
      if Ascii.eqb v "d" then itoa z else "%!" ++ String v ("(int=" ++ itoa z ++ ")")
  end.

Definition digit (c : ascii) : option nat :=
  let n := N_of_ascii c in
  if ((49 <=? n) && (n <=? 57))%N then Some (N.to_nat (n - 49)) else None.

(** [Sprintf] for formats made of literal text, [%s], [%d] and the
    explicit argument indexes [%[k]s], [%[k]d] with a one-digit [k].
    [next] is the index of the argument the next verb takes. *)
Fixpoint sprintf (format : string) (args : list arg) (next : nat) : string :=
  match format with
  | String "%" (String "[" (String k (String "]" (String v rest)))) =>
      match digit k with
      | Some i => verb v (nth_error args i) ++ sprintf rest args (S i)
      | None => "%!" ++ String v "(BADINDEX)" ++ sprintf rest args next
      end
  | String "%" (String v rest) =>
      verb v (nth_error args next) ++ sprintf rest args (S next)
  | String c rest => String c (sprintf rest args next)
  | EmptyString => EmptyString
  end.

Definition Sprintf (format : string) (args : list arg) : string :=
  sprintf format args 0.

End Fmt.

(** ** The template helper functions of [newTemplateManager] *)

Module Helpers.
Import Fmt.

(** ["since"]: [seconds] is the value of [int(time.Since(t).Seconds())];
    the conversion from the float64 number of seconds is taken as given. *)
Definition since (seconds : Z) : string :=
  if seconds <? 60 then "< 1 minute ago"
  else if seconds <? 60 * 2 then "1 minute ago"
  else if seconds <? 60 * 60 then
    Sprintf "%d minutes ago" [AInt (Z.quot seconds 60)]
  else if seconds <? 60 * 60 * 2 then "1 hour ago"
  else if seconds <? 60 * 60 * 24 then
    Sprintf "%d hours ago" [AInt (Z.quot seconds (60 * 60))]
  else if seconds <? 60 * 60 * 24 * 2 then "1 day ago"
  else if seconds <? 60 * 60 * 24 * 30 then
    Sprintf "%d days ago" [AInt (Z.quot seconds (60 * 60 * 24))]
  else if seconds <? 60 * 60 * 24 * 30 * 2 then "1 month ago"
  else if seconds <? 60 * 60 * 24 * 30 * 12 then
    Sprintf "%d months ago" [AInt (Z.quot seconds (60 * 60 * 24 * 30))]
  else "> 1 year ago".

(** The body of the [for] loop of ["paginate"], for the page [i]. *)
Definition page_item (curPage nPages : Z) (url : string) (i : Z)
    (result : string) : string :=
  if (0 <? i) && (i <=? nPages) then
    if i =? curPage then
      result ++ Sprintf "<li class='active'><a href='%s/page/%d'>%[2]d</a></li>"
                        [AStr url; AInt i]
    else
      result ++ Sprintf "<li><a href='%s/page/%d'>%[2]d</a></li>"
                        [AStr url; AInt i]
  else result.

(** [for i := from; i < to; i++]: [n] is the number of iterations left.
    [i] stays below [to], so [i++] never wraps. *)
Fixpoint page_loop (n : nat) (curPage nPages : Z) (url : string) (i : Z)
    (result : string) : string :=
  match n with
  | O => result
  | S n' =>
      page_loop n' curPage nPages url (i + 1)
                (page_item curPage nPages url i result)
  end.

Definition paginate (curPage nPages offset : Z) (url : string) : string :=
  if nPages <? 2 then ""
  else
    let result := "<ul class='pagination'>" in
    let result :=
      if curPage >? 1 then
        result ++ Sprintf ("<li><a href='%s/page/first'>&laquo;First</a></li>" ++
                           "<li><a href='%[1]s/page/%d'>&laquo;</a></li>")
                          [AStr url; AInt (wrap (curPage - 1))]
      else result in
    let result :=
      if wrap (curPage - offset) >? 1 then result ++ "<li><span>...</span></li>"
      else result in
    let from := wrap (curPage - offset) in
    let to := wrap (wrap (curPage + offset) + 1) in
    let result :=
      page_loop (Z.to_nat (to - from)) curPage nPages url from result in
    let result :=
      if wrap (curPage + offset) <? nPages then
        result ++ "<li><span>...</span></li>"
      else result in
    let result :=
      if negb (curPage =? nPages) then
        result ++ Sprintf ("<li><a href='%s/page/%d'>&raquo;</a></li>" ++
                           "<li><a href='%[1]s/page/last'>Last&raquo;</a></li>")
                          [AStr url; AInt (wrap (curPage + 1))]
      else result in
    result ++ "</ul>".

(** The link of the page [i], as the loop writes it. *)
Definition page_link (curPage : Z) (url : string) (i : Z) : string :=
  if i =? curPage then
    Sprintf "<li class='active'><a href='%s/page/%d'>%[2]d</a></li>"
            [AStr url; AInt i]
  else Sprintf "<li><a href='%s/page/%d'>%[2]d</a></li>" [AStr url; AInt i].

(** The pages of the window from [curPage - offset] to [curPage + offset]
    that exist. *)
Definition pages_shown (curPage nPages offset : Z) : list Z :=
  filter (fun i => 0 < i <= nPages) (seqZ (curPage - offset) (2 * offset + 1)).

(** The texts of [l] one after the other. *)
Definition concat_all (l : list string) : string :=
  fold_right String.append EmptyString l.

End Helpers.

(** ** Errors *)

Inductive error : Type :=
| ErrHookDuplicateID
| ErrHookUnknownID
| ErrHookInvalidHandler
| SkipDir                      (* filepath.SkipDir *)
| PathError (op path : string) (* *os.PathError of a failed system call *)
| ParseError (msg : string)    (* an error of template.Parse *)
| ExecError (msg : string)     (* an error of template.Execute *)
| WatcherError (msg : string)  (* an error of fsnotify *)
| Errorf (msg : string).       (* the value of fmt.Errorf *)

(** [err.Error()] *)
Definition Error (e : error) : string :=
  match e with
  | ErrHookDuplicateID => "id already in use"
  | ErrHookUnknownID => "unknown hook Id"
  | ErrHookInvalidHandler => "handler is not a function"
  | SkipDir => "skip this directory"
  | PathError op path => op ++ " " ++ path ++ ": failed"
  | ParseError msg => msg
  | ExecError msg => msg
  | WatcherError msg => msg
  | Errorf msg => msg
  end.

#[export] Instance error_eq_dec : EqDecision error.
Proof. solve_decision. Defined.

(** ** Package [reflect]: type descriptors and assignability *)

Module Reflect.

Inductive Kind : Type :=
| Bool | Int | String_ | Func | Slice | Struct | Ptr | Map | Chan | Interface.

#[export] Instance Kind_eq_dec : EqDecision Kind.
Proof. solve_decision. Defined.

(** A [reflect.Type]. [tname] is the name of a defined type and [None]
    for a type literal; [tunder] is the underlying type written as a
    literal; [tmethods] is the method set. Two descriptors denote
    identical types exactly when they are equal. *)
Record rtype : Type := {
  tname : option string;
  tkind : Kind;
  tunder : string;
  tmethods : list string
}.

#[export] Instance rtype_eq_dec : EqDecision rtype.
Proof. solve_decision. Defined.

(** reflect's [directlyAssignable(T, V)]: identical types, or identical
    underlying types when at most one of the two is a defined type. *)
Definition directlyAssignable (T V : rtype) : bool :=
  if decide (T = V) then true
  else if (bool_decide (is_Some (tname T)) && bool_decide (is_Some (tname V)))
          || negb (bool_decide (tkind T = tkind V)) then false
  else bool_decide (tunder T = tunder V).

(** reflect's [implements(T, V)]: [T] is an interface whose methods [V]
    has. *)
Definition implements (T V : rtype) : bool :=
  if decide (tkind T = Interface) then
    forallb (fun m => bool_decide (m ∈ tmethods V)) (tmethods T)
  else false.

(** [V.AssignableTo(T)] *)
Definition AssignableTo (V T : rtype) : bool :=
  directlyAssignable T V || implements T V.

(** A non-nil [interface{}] value: its dynamic type and its
    representation. *)
Record dyn (V : Type) : Type := { dtype : rtype; dval : V }.
Arguments dtype {V} d.
Arguments dval {V} d.

(** An [interface{}]; [None] is nil. *)
Definition iface (V : Type) : Type := option (dyn V).

(** [reflect.TypeOf(i)]; nil for a nil interface. *)
Definition TypeOf {V : Type} (i : iface V) : option rtype := dtype <$> i.

End Reflect.

(** ** The hook registry *)

Module Hooks.
Import Reflect.

Section WithValues.
Context {V : Type}.

Record hook : Type := {
  signiture : rtype;
  handler : list (iface V)
}.

(** [hooks]: the field [list] of the code, a [map[int]*hook]; [None]
    is the nil map of a zero [hooks] value. *)
Record hooks : Type := {
  hlist : option (gmap Z hook)
}.

(** [h.list[hookID]]; reading a nil map finds nothing. *)
Definition find (h : hooks) (hookID : Z) : option hook :=
  match hlist h with
  | None => None
  | Some m => m !! hookID
  end.

(** [signiture] is a [reflect.Type]: [None] is a nil interface, on
    which [Kind()] cannot be called. *)
Definition registerHook (h : hooks) (hookID : Z) (signiture : option rtype)
    : outcome (hooks * option error) :=
  let m := match hlist h with
           | None => ∅
           | Some m => m
           end in
  match m !! hookID with
  | Some _ => Done ({| hlist := Some m |}, Some ErrHookDuplicateID)
  | None =>
      match signiture with
      | None => Panic "invalid memory address or nil pointer dereference"
      | Some sig =>
          if negb (bool_decide (tkind sig = Func)) then
            Done ({| hlist := Some m |}, Some ErrHookInvalidHandler)
          else
            Done ({| hlist := Some (<[hookID := {| signiture := sig; handler := [] |}]> m) |},
                  None)
      end
  end.

Definition getHooks (h : hooks) (hookID : Z) : list (iface V) :=
  match find h hookID with
  | None => []
  | Some hook => handler hook
  end.

(** [hook] is a pointer into the map: the append is seen through
    [h.list[hookID]]. [reflect.TypeOf] of a nil [handler] is a nil
    [reflect.Type], and the call of [AssignableTo] on it panics. *)
Definition AddHook (h : hooks) (hookID : Z) (handler_ : iface V)
    : outcome (hooks * option error) :=
  match hlist h with
  | None => Done (h, Some ErrHookUnknownID)
  | Some m =>
      match m !! hookID with
      | None => Done (h, Some ErrHookUnknownID)
      | Some hook =>
          match TypeOf handler_ with
          | None => Panic "invalid memory address or nil pointer dereference"
          | Some t =>
              if negb (AssignableTo t (signiture hook)) then
                Done (h, Some ErrHookInvalidHandler)
              else
                Done ({| hlist := Some (<[hookID :=
                           {| signiture := signiture hook;
                              handler := (handler hook ++ [handler_])%list |}]> m) |},
                      None)
          end
      end
  end.

(** A sequence of calls of [AddHook], each of which returns nil. *)
Inductive attached : hooks -> list (Z * iface V) -> hooks -> Prop :=
| attached_nil h : attached h [] h
| attached_cons h id x h1 l h2 :
    AddHook h id x = Done (h1, None) ->
    attached h1 l h2 ->
    attached h ((id, x) :: l) h2.

(** One call of [registerHook] or of [AddHook] that returns. *)
Inductive call : hooks -> hooks -> Prop :=
| call_register h hookID sig h' e :
    registerHook h hookID sig = Done (h', e) -> call h h'
| call_add h hookID x h' e :
    AddHook h hookID x = Done (h', e) -> call h h'.

(** Every registered signature is a function type, and every handler is
    a non-nil value of a type assignable to the signature of its hook. *)
Definition well_typed (h : hooks) : Prop :=
  forall hookID hk, find h hookID = Some hk ->
    tkind (signiture hk) = Func /\
    Forall (fun x => exists d, x = Some d /\
                     AssignableTo (dtype d) (signiture hk) = true)
           (handler hk).

(** The handlers of the calls for [id], in the order of the calls. *)
Definition handlers_for (id : Z) (l : list (Z * iface V)) : list (iface V) :=
  snd <$> filter (fun p => p.1 = id) l.

End WithValues.
Arguments hook V : clear implicits.
Arguments hooks V : clear implicits.

End Hooks.

(** ** The file system

    A tree of directories and regular files. Paths are slash-separated and
    resolved component by component from the root of the tree; the names of
    a directory are kept in the order in which [filepath.Walk] visits them
    (sorted, as [readDirNames] returns them). Names are case-sensitive. *)

Module FS.

#[warnings="-register-all"]
Inductive node : Type :=
| File (data : string)
| Dir (entries : list (string * node)).

Definition is_dir (n : node) : bool :=
  match n with
  | Dir _ => true
  | File _ => false
  end.

(** [strings.Split(s, "/")] *)
Fixpoint split (s : string) : list string :=
  match s with
  | EmptyString => [EmptyString]
  | String c s' =>
      if Ascii.eqb c "/" then EmptyString :: split s'
      else match split s' with
           | [] => [String c EmptyString]
           | x :: r => String c x :: r
           end
  end.

(** The components the system resolves: empty ones and ["."] are
    skipped. *)
Definition components (path : string) : list string :=
  filter (fun c => c ≠ EmptyString ∧ c ≠ ".") (split path).

(** The last element of a path, [os.FileInfo.Name()] of [Lstat(path)]. *)
Definition base (path : string) : string :=
  List.last (filter (fun c => c ≠ EmptyString) (split path)) "/".

Fixpoint assoc (name : string) (es : list (string * node)) : option node :=
  match es with
  | [] => None
  | (n, x) :: es' => if String.eqb n name then Some x else assoc name es'
  end.

(** Replace the entry [name], or add it at its place in the order. *)
Fixpoint put (name : string) (x : node) (es : list (string * node))
    : list (string * node) :=
  match es with
  | [] => [(name, x)]
  | (n, y) :: es' =>
      if String.eqb n name then (name, x) :: es'
      else if String.ltb name n then (name, x) :: (n, y) :: es'
      else (n, y) :: put name x es'
  end.

Fixpoint resolve (p : list string) (n : node) : option node :=
  match p with
  | [] => Some n
  | c :: p' =>
      match n with
      | Dir es => n' ← assoc c es; resolve p' n'
      | File _ => None
      end
  end.

(** [os.Lstat]: the empty path names nothing. *)
Definition Lstat (fs : node) (path : string) : option node :=
  if String.eqb path EmptyString then None else resolve (components path) fs.

(** [ioutil.ReadFile] *)
Definition ReadFile (fs : node) (path : string) : string + error :=
  match Lstat fs path with
  | Some (File data) => inl data
  | _ => inr (PathError "open" path)
  end.

(** Make the directories of [p] below [n]; fails on a regular file. *)
Fixpoint mkdir_all (p : list string) (n : node) : option node :=
  match n with
  | File _ => None
  | Dir es =>
      match p with
      | [] => Some n
      | c :: p' =>
          let child := default (Dir []) (assoc c es) in
          child' ← mkdir_all p' child;
          Some (Dir (put c child' es))
      end
  end.

(** [os.MkdirAll(path, os.ModePerm)] *)
Definition MkdirAll (fs : node) (path : string) : node + error :=
  if String.eqb path EmptyString then inr (PathError "mkdir" path)
  else match mkdir_all (components path) fs with
       | Some fs' => inl fs'
       | None => inr (PathError "mkdir" path)
       end.

(** Create or truncate the regular file [p] below [n] and give it the
    content [data]; its directory has to exist. *)
Fixpoint write_file (p : list string) (data : string) (n : node) : option node :=
  match p, n with
  | [], _ => None
  | _, File _ => None
  | [c], Dir es =>
      match assoc c es with
      | Some (Dir _) => None
      | _ => Some (Dir (put c (File data) es))
      end
  | c :: p', Dir es =>
      child ← assoc c es;
      child' ← write_file p' data child;
      Some (Dir (put c child' es))
  end.

(** [os.Create(path)]: the file exists and is empty afterwards. *)
Definition Create (fs : node) (path : string) : node + error :=
  match write_file (components path) EmptyString fs with
  | Some fs' => inl fs'
  | None => inr (PathError "open" path)
  end.

(** The writes of [data] to the file [os.Create(path)] has opened. *)
Definition Write (fs : node) (path : string) (data : string) : node :=
  default fs (write_file (components path) data fs).

(** Every regular file of [a] is a regular file of [b]. *)
Definition keeps_files (a b : node) : Prop :=
  forall q d, resolve q a = Some (File d) -> exists d', resolve q b = Some (File d').

(** [os.FileInfo]; the nil interface is [None]. *)
Record FileInfo : Type := { Name : string; IsDir : bool }.

(** [filepath.Join(path, name)] for a clean [path] other than ["."] and
    ["/"]. *)
Definition Join (path name : string) : string := path ++ "/" ++ name.

Section Walk.
Context {S : Type}.

(** [filepath.WalkFunc], with the state the closure captures. The
    [err] argument is not modelled: the tree is readable, and the one
    failure left, [Lstat] of the root, hands the function a nil
    [info]. *)
Definition WalkFunc : Type :=
  S -> string -> option FileInfo -> outcome (S * option error).

(** filepath's [walk]. *)
Fixpoint walk (fn : WalkFunc) (path name : string) (n : node) (st : S)
    : outcome (S * option error) :=
  match n with
  | File _ => fn st path (Some {| Name := name; IsDir := false |})
  | Dir es =>
      r ← fn st path (Some {| Name := name; IsDir := true |});
      match r with
      | (st1, Some e) => Done (st1, Some e)
      | (st1, None) =>
          (fix walk_names (es : list (string * node)) (st : S)
             : outcome (S * option error) :=
             match es with
             | [] => Done (st, None)
             | (nm, child) :: es' =>
                 r ← walk fn (Join path nm) nm child st;
                 match r with
                 | (st', Some e) =>
                     if negb (is_dir child) || negb (bool_decide (e = SkipDir))
                     then Done (st', Some e)
                     else walk_names es' st'
                 | (st', None) => walk_names es' st'
                 end
             end) es st1
      end
  end.

(** The loop of [walk] over the names of the directory [path]. *)
Definition walk_names (fn : WalkFunc) (path : string)
    : list (string * node) -> S -> outcome (S * option error) :=
  fix walk_names (es : list (string * node)) (st : S) :=
    match es with
    | [] => Done (st, None)
    | (nm, child) :: es' =>
        r ← walk fn (Join path nm) nm child st;
        match r with
        | (st', Some e) =>
            if negb (is_dir child) || negb (bool_decide (e = SkipDir))
            then Done (st', Some e)
            else walk_names es' st'
        | (st', None) => walk_names es' st'
        end
    end.

(** [filepath.Walk(root, fn)] over the tree [fs]. *)
Definition Walk (fs : node) (root : string) (fn : WalkFunc) (st : S)
    : outcome (S * option error) :=
  r ← match Lstat fs root with
      | None => fn st root None
      | Some n => walk fn root (base root) n st
      end;
  match r with
  | (st', Some e) => Done (st', if decide (e = SkipDir) then None else Some e)
  | (st', None) => Done (st', None)
  end.

End Walk.
Arguments WalkFunc S : clear implicits.

End FS.

(** ** The template pipeline *)

Module Template.
Import GoStrings Fmt Reflect Hooks FS.

(** TemplateManager hooks *)
Definition TmBeforeParse : Z := 0.
Definition TmBeforeRender : Z := 1.
Definition tmLast : Z := 2.

(** Package [html/template], as far as the pipeline relies on it: what a
    parsed fragment is, how a source text is parsed under a function
    table (given by the names it defines), and how a fragment of a group
    is executed against data ([None] is nil data). [Parse] yields the
    fragment or the message of its error; [Execute] yields the bytes
    written to the writer and the message of its error, if any. *)
Class Engine : Type := {
  Request : Type;
  Val : Type;
  tmpl : Type;
  Parse : gset string -> string -> tmpl + string;
  Execute : gmap string tmpl -> tmpl -> option (gmap string Val)
            -> string * option string
}.

Section WithEngine.
Context `{Engine}.

(** A pointer to a [TemplateManager]. *)
Definition ptr : Type := nat.

(** The values handlers are made of. A handler is modelled by its
    effect on what it is handed: the byte buffer it points to, the
    argument map. *)
Inductive value : Type :=
| ParseFn (f : ptr -> string -> string -> string)
| RenderFn (f : Request -> ptr -> tmpl -> gmap string Val -> gmap string Val)
| Other.

(** A template group, [*template.Template]: the function table given
    to its first fragment and the fragments by name. *)
Record group : Type := {
  funcs : gset string;
  set : gmap string tmpl
}.

(** [self] is the address of the manager, [watcher] the directories
    the running watcher observes ([None]: no watcher). *)
Record TemplateManager : Type := {
  self : ptr;
  tm_hooks : hooks value;
  directory : string;
  watcher : option (list string);
  tmplFuncs : gset string;
  tmplList : option group
}.

Definition sigBeforeParse : rtype :=
  {| tname := None; tkind := Func;
     tunder := "func( *jantar.TemplateManager, string, *[]uint8)";
     tmethods := [] |}.

Definition sigBeforeRender : rtype :=
  {| tname := None; tkind := Func;
     tunder := "func( *http.Request, *jantar.TemplateManager, *template.Template, map[string]interface {})";
     tmethods := [] |}.

(** The type assertion of [hook] to the BEFORE_PARSE function type: the
    dynamic type has to be identical to it. *)
Definition asBeforeParse (hook : iface value)
    : outcome (ptr -> string -> string -> string) :=
  match hook with
  | Some {| dtype := t; dval := ParseFn f |} =>
      if decide (t = sigBeforeParse) then Done f
      else Panic "interface conversion"
  | _ => Panic "interface conversion"
  end.

(** The type assertion of [hook] to the BEFORE_RENDER function type. *)
Definition asBeforeRender (hook : iface value)
    : outcome (Request -> ptr -> tmpl -> gmap string Val -> gmap string Val) :=
  match hook with
  | Some {| dtype := t; dval := RenderFn f |} =>
      if decide (t = sigBeforeRender) then Done f
      else Panic "interface conversion"
  | _ => Panic "interface conversion"
  end.

(** The normal form of a path: lower case, forward slashes. *)
Definition normalize (path : string) : string :=
  Replace (ToLower path) "\" "/".

(** The names of the functions [newTemplateManager] defines. *)
Definition builtinFuncs : gset string :=
  {[ "antiClickjacking"; "set"; "array"; "toHtml"; "url"; "since"; "paginate" ]}.

Definition newTemplateManager (addr : ptr) (directory : string)
    : outcome TemplateManager :=
  let h := {| hlist := None |} in
  r1 ← registerHook h TmBeforeParse (Some sigBeforeParse);
  r2 ← registerHook r1.1 TmBeforeRender (Some sigBeforeRender);
  Done {| self := addr;
          tm_hooks := r2.1;
          directory := normalize directory;
          watcher := None;
          tmplFuncs := builtinFuncs;
          tmplList := None |}.

Definition AddTmplFunc (tm : TemplateManager) (name : string) : TemplateManager :=
  {| self := self tm; tm_hooks := tm_hooks tm; directory := directory tm;
     watcher := watcher tm; tmplFuncs := {[ name ]} ∪ tmplFuncs tm;
     tmplList := tmplList tm |}.

(** What the system answers to the calls of fsnotify: the error of
    [NewWatcher], and whether [Watch] takes a directory. *)
Record Notify : Type := {
  NewWatcher : option error;
  Watch : string -> option error
}.

(** The variables the closure of [loadTemplates] captures and changes,
    and the file system it reads and writes. *)
Record walk_state : Type := {
  fs : node;
  watched : list string;
  templates : option group;
  staticTemplates : option group
}.

(** [t.New(name).Parse(text)] in the group [g] ([None]: the group is
    started by [template.New(name)] with the table [fm]). *)
Definition parse_into (g : option group) (fm : gset string)
    (name text : string) : group + error :=
  let fm' := match g with
             | Some g => funcs g
             | None => fm
             end in
  match Parse fm' text with
  | inl t =>
      inl {| funcs := fm';
             set := <[name := t]> (match g with
                                   | Some g => set g
                                   | None => ∅
                                   end) |}
  | inr msg => inr (ParseError msg)
  end.

(** The [for] loop over the BEFORE_PARSE hooks. *)
Fixpoint fire_parse (hs : list (iface value)) (tm : ptr) (tmplName fdata : string)
    : outcome string :=
  match hs with
  | [] => Done fdata
  | hook :: hs' =>
      f ← asBeforeParse hook;
      fire_parse hs' tm tmplName (f tm tmplName fdata)
  end.

(** The static branch after a successful parse: emit the rendered
    fragment. Yields the file system and [err]. *)
Definition emit_static (tm : TemplateManager) (st : walk_state) (g : group)
    (tmplName : string) (info : FileInfo) : outcome (node * option error) :=
  if negb (HasPrefix tmplName "_") && negb (Contains tmplName "/_") then
    let filename := directory tm ++ "/_" ++ tmplName in
    let n := Z.of_nat (String.length filename)
             - Z.of_nat (String.length (Name info)) - 1 in
    if n <? 0 then Panic "slice bounds out of range"
    else
      dir ← slice_to filename (Z.to_nat n);
      match MkdirAll (fs st) dir with
      | inr e => Done (fs st, Some e)
      | inl fs1 =>
          match Create fs1 filename with
          | inr e => Done (fs1, Some e)
          | inl fs2 =>
              match set g !! tmplName with
              | None => Panic "invalid memory address or nil pointer dereference"
              | Some t =>
                  let '(out, err) := Execute (set g) t None in
                  Done (Write fs2 filename out, ExecError <$> err)
              end
          end
      end
  else Done (fs st, None).

(** The function [loadTemplates] hands to [filepath.Walk]. *)
Definition walkFn (tm : TemplateManager) (nf : Notify) : WalkFunc walk_state :=
  fun st path info =>
  let path := normalize path in
  match info with
  | None => Panic "invalid memory address or nil pointer dereference"
  | Some info =>
      if IsDir info then
        if HasPrefix (Name info) "." || String.eqb (Name info) "_static" then
          Done (st, Some SkipDir)
        else
          (* add the current directory to the watcher *)
          match Watch nf path with
          | Some _ => Done (st, None)
          | None =>
              Done ({| fs := fs st; watched := (watched st ++ [path])%list;
                       templates := templates st;
                       staticTemplates := staticTemplates st |}, None)
          end
      else if HasSuffix (Name info) ".html" then
        let static := HasPrefix path (directory tm ++ "/static/") in
        match ReadFile (fs st) path with
        | inr err => Done (st, Some err)
        | inl fdata =>
            tmplName ← slice_from path (String.length (directory tm) + 1);
            if static then
              match parse_into (staticTemplates st) ∅ tmplName fdata with
              | inr err =>
                  Done ({| fs := fs st; watched := watched st;
                           templates := templates st;
                           staticTemplates := None |}, Some err)
              | inl g =>
                  r ← emit_static tm st g tmplName info;
                  Done ({| fs := r.1; watched := watched st;
                           templates := templates st;
                           staticTemplates := Some g |}, r.2)
              end
            else
              (* call BEFORE_PARSE hooks *)
              fdata ← fire_parse (getHooks (tm_hooks tm) TmBeforeParse)
                                 (self tm) tmplName fdata;
              match parse_into (templates st) (tmplFuncs tm) tmplName fdata with
              | inr err => Done (st, Some err)
              | inl g =>
                  Done ({| fs := fs st; watched := watched st;
                           templates := Some g;
                           staticTemplates := staticTemplates st |}, None)
              end
        end
      else Done (st, None)
  end.

(** The directories the function answers with [SkipDir]. *)
Definition skipped (name : string) : bool :=
  HasPrefix name "." || String.eqb name "_static".

(** The calls [filepath.Walk] makes on the tree [n] at [path], in
    order, when the function skips the [skipped] directories and no
    others: a skipped directory is handed to the function, its
    entries are not. *)
Fixpoint visits (path name : string) (n : node) : list (string * FileInfo) :=
  match n with
  | File _ => [(path, {| Name := name; IsDir := false |})]
  | Dir es =>
      (path, {| Name := name; IsDir := true |}) ::
      (if skipped name then []
       else (fix visits_names (es : list (string * node)) :=
               match es with
               | [] => []
               | (nm, child) :: es' =>
                   (visits (Join path nm) nm child ++ visits_names es')%list
               end) es)
  end.

Definition visits_names (path : string)
    : list (string * node) -> list (string * FileInfo) :=
  fix visits_names (es : list (string * node)) :=
    match es with
    | [] => []
    | (nm, child) :: es' =>
        (visits (Join path nm) nm child ++ visits_names es')%list
    end.

(** The calls of [l] one after the other, up to the first error other
    than [SkipDir]. *)
Fixpoint run (tm : TemplateManager) (nf : Notify)
    (l : list (string * FileInfo)) (st : walk_state)
    : outcome (walk_state * option error) :=
  match l with
  | [] => Done (st, None)
  | (path, info) :: l' =>
      r ← walkFn tm nf st path (Some info);
      match r with
      | (st', Some e) =>
          if decide (e = SkipDir) then run tm nf l' st' else Done (st', Some e)
      | (st', None) => run tm nf l' st'
      end
  end.

(** What [walk] adds to the calls: the [SkipDir] of a skipped directory
    goes up to the loop over the names of its parent. *)
Definition mark (name : string) (n : node) (r : walk_state * option error)
    : walk_state * option error :=
  match r with
  | (st', None) => (st', if is_dir n && skipped name then Some SkipDir else None)
  | _ => r
  end.

(** The calls that hand a directory to the watcher with success. *)
Definition watchable (nf : Notify) (c : string * FileInfo) : bool :=
  IsDir c.2 && negb (skipped (Name c.2)) &&
  bool_decide (Watch nf (normalize c.1) = None).

(** The state in which the walk of [loadTemplates] starts. *)
Definition walk_start (fs0 : node) : walk_state :=
  {| fs := fs0; watched := []; templates := None; staticTemplates := None |}.

(** In the state [st], reading or parsing the fragment file at [path]
    fails with [e]. *)
Definition read_or_parse_error (tm : TemplateManager) (st : walk_state)
    (path : string) (info : FileInfo) (e : error) : Prop :=
  IsDir info = false /\ HasSuffix (Name info) ".html" = true /\
  let path := normalize path in
  (ReadFile (fs st) path = inr e \/
   exists fdata tmplName,
     ReadFile (fs st) path = inl fdata /\
     slice_from path (String.length (directory tm) + 1) = Done tmplName /\
     if HasPrefix path (directory tm ++ "/static/") then
       parse_into (staticTemplates st) ∅ tmplName fdata = inr e
     else
       exists fdata',
         fire_parse (getHooks (tm_hooks tm) TmBeforeParse) (self tm)
                    tmplName fdata = Done fdata' /\
         parse_into (templates st) (tmplFuncs tm) tmplName fdata' = inr e).

(** [loadTemplates]: the manager and the file system afterwards, and
    the error returned. The watch goroutine is not part of the
    embedding. *)
Definition loadTemplates (tm : TemplateManager) (nf : Notify) (fs0 : node)
    : outcome (TemplateManager * node * option error) :=
  match NewWatcher nf with
  | Some err =>
      Done ({| self := self tm; tm_hooks := tm_hooks tm;
               directory := directory tm; watcher := None;
               tmplFuncs := tmplFuncs tm; tmplList := tmplList tm |},
            fs0, Some err)
  | None =>
      r ← Walk fs0 (directory tm) (walkFn tm nf) (walk_start fs0);
      let '(st, ret) := r in
      Done ({| self := self tm; tm_hooks := tm_hooks tm;
               directory := directory tm; watcher := Some (watched st);
               tmplFuncs := tmplFuncs tm;
               (* no errors occured, override the old list *)
               tmplList := match ret with
                           | None => templates st
                           | Some _ => tmplList tm
                           end |},
            fs st, ret)
  end.

Definition getTemplate (tm : TemplateManager) (name : string)
    : option (group * tmpl) :=
  match tmplList tm with
  | None => None
  | Some g => t ← set g !! ToLower name; Some (g, t)
  end.

(** What a render does, in order. *)
Inductive event : Type :=
| Fired (hook : iface value) (req : Request) (tm : ptr) (t : tmpl)
        (args : gmap string Val)
| Executed (t : tmpl) (args : gmap string Val) (written : string).

(** The [for] loop over the BEFORE_RENDER hooks; the handlers share
    the one argument map. *)
Fixpoint fire_render (hs : list (iface value)) (req : Request) (tm : ptr)
    (t : tmpl) (args : gmap string Val) (trace : list event)
    : outcome (gmap string Val * list event) :=
  match hs with
  | [] => Done (args, trace)
  | hook :: hs' =>
      f ← asBeforeRender hook;
      fire_render hs' req tm t (f req tm t args)
                  (trace ++ [Fired hook req tm t args])%list
  end.

(** The handlers [hs] fired in order on the shared argument map: the
    events, and the map the last handler leaves. *)
Inductive fired (req : Request) (tm : ptr) (t : tmpl)
  : list (iface value) -> gmap string Val -> list event -> gmap string Val
    -> Prop :=
| fired_nil args : fired req tm t [] args [] args
| fired_cons hook f hs args evs args' :
    asBeforeRender hook = Done f ->
    fired req tm t hs (f req tm t args) evs args' ->
    fired req tm t (hook :: hs) args (Fired hook req tm t args :: evs) args'.

(** [RenderTemplate]: the events in order, the bytes written to [w]
    and the error returned. *)
Definition RenderTemplate (tm : TemplateManager) (req : Request)
    (name : string) (args : gmap string Val)
    : outcome (list event * string * option error) :=
  match getTemplate tm name with
  | None =>
      Done ([], EmptyString,
            Some (Errorf (Sprintf "can't find template '%s'"
                                  [AStr (ToLower name)])))
  | Some (g, t) =>
      (* call BEFORE_RENDER hooks *)
      r ← fire_render (getHooks (tm_hooks tm) TmBeforeRender) req (self tm)
                      t args [];
      let '(args', trace) := r in
      let '(out, err) := Execute (set g) t (Some args') in
      Done ((trace ++ [Executed t args' out])%list, out,
            match err with
            | Some msg =>
                Some (Errorf (Sprintf "failed to render template. Reason: %s"
                                      [AStr (Error (ExecError msg))]))
            | None => None
            end)
  end.

End WithEngine.

End Template.

(** ** Validation *)

Module Validation.
Import Fmt.

(** [time.Time], as far as [IsZero] looks at it. *)
Record Time : Type := { sec : Z; nsec : Z }.

Definition IsZero (t : Time) : bool := (sec t =? 0) && (nsec t =? 0).

(** An [interface{}] argument, by what the code can tell of it: nil, a
    dynamic type identical to [int], [string] or [time.Time], any type of
    kind slice (with its length), or any other type. *)
Inductive object : Type :=
| Nil
| OfInt (value : Z)
| OfString (value : string)
| OfTime (value : Time)
| OfSlice (len : Z)
| OfOther.

(** The map [errors] is allocated where a [Validation] is built, outside
    these files. *)
Record Validation : Type := {
  HasErrors : bool;
  errors : gmap string (list string)
}.

(** [validation] points to the [Validation] the result was added to; it
    is the one the functions below return next to the result. *)
Record ValidationResult : Type := {
  valid : bool;
  name : string;
  index : Z
}.

Definition messages (v : Validation) (name : string) : list string :=
  default [] (errors v !! name).

Definition addValidationResult (v : Validation) (name : string) (valid : bool)
    (message : string) : Validation * ValidationResult :=
  if negb valid then
    let msgs := (messages v name ++ [message])%list in
    ({| HasErrors := true; errors := <[name := msgs]> (errors v) |},
     {| valid := valid; name := name; index := Z.of_nat (length msgs) - 1 |})
  else
    (v, {| valid := valid; name := name; index := -1 |}).

Definition IsValid (vr : ValidationResult) : bool := valid vr.

(** [vr.Message(msg)] for the result [vr] of a call on [v]. A nil [vr] is
    dereferenced after the warning is logged; the message of an invalid
    result is replaced where the result points. *)
Definition Message (v : Validation) (vr : option ValidationResult) (msg : string)
    : outcome (Validation * option ValidationResult) :=
  match vr with
  | None => Panic "invalid memory address or nil pointer dereference"
  | Some r =>
      if negb (index r =? -1) then
        let l := messages v (name r) in
        if (0 <=? index r) && (index r <? Z.of_nat (length l)) then
          Done ({| HasErrors := HasErrors v;
                   errors := <[name r := <[Z.to_nat (index r) := msg]> l]> (errors v) |},
                Some r)
        else Panic "index out of range"
      else Done (v, Some r)
  end.

(** [HasErrors] is set exactly when some name has a message. *)
Definition consistent (v : Validation) : Prop :=
  HasErrors v = true <-> exists name, messages v name <> [].

(** The dynamic type is [int], [string] or of kind slice. *)
Definition int_string_or_slice (obj : object) : bool :=
  match obj with
  | OfInt _ | OfString _ | OfSlice _ => true
  | _ => false
  end.

(** The call that led from [v] to [r] recorded an invalid result for
    [name]: [message] is the last message of [name], the other names
    have the messages they had, [HasErrors] is set, and the result
    points to the message. *)
Definition recorded_invalid (v : Validation) (name message : string)
    (r : Validation * option ValidationResult) : Prop :=
  HasErrors r.1 = true /\
  messages r.1 name = (messages v name ++ [message])%list /\
  (forall other, other <> name -> messages r.1 other = messages v other) /\
  exists vr, r.2 = Some vr /\ IsValid vr = false /\
             messages r.1 name !! Z.to_nat (index vr) = Some message.

(** The functions below return the validation and the result; [None] is
    a nil [*ValidationResult]. *)
Definition some (r : Validation * ValidationResult)
    : Validation * option ValidationResult := (r.1, Some r.2).

Definition Required (v : Validation) (name : string) (obj : object)
    : Validation * option ValidationResult :=
  let defaultMessage := "Required" in
  match obj with
  | Nil => some (addValidationResult v name false defaultMessage)
  | OfInt value =>
      some (addValidationResult v name (negb (value =? 0)) defaultMessage)
  | OfString value =>
      some (addValidationResult v name
              (Z.of_nat (String.length value) >? 0) defaultMessage)
  | OfTime value => some (addValidationResult v name (IsZero value) defaultMessage)
  | OfSlice len => some (addValidationResult v name (len >? 0) defaultMessage)
  | OfOther => (v, None)
  end.

Definition Min (v : Validation) (name : string) (obj : object) (min : Z)
    : Validation * option ValidationResult :=
  let defaultMessage := Sprintf "Must be larger than %d" [AInt min] in
  match obj with
  | Nil => some (addValidationResult v name false defaultMessage)
  | OfInt value => some (addValidationResult v name (value >=? min) defaultMessage)
  | OfString value =>
      some (addValidationResult v name
              (Z.of_nat (String.length value) >=? min) defaultMessage)
  | OfSlice len => some (addValidationResult v name (len >=? min) defaultMessage)
  | OfTime _ | OfOther => (v, None)
  end.

Definition Max (v : Validation) (name : string) (obj : object) (max : Z)
    : Validation * option ValidationResult :=
  let defaultMessage := Sprintf "Must be smaller than %d" [AInt max] in
  match obj with
  | Nil => some (addValidationResult v name false defaultMessage)
  | OfInt value => some (addValidationResult v name (value <=? max) defaultMessage)
  | OfString value =>
      some (addValidationResult v name
              (Z.of_nat (String.length value) <=? max) defaultMessage)
  | OfSlice len => some (addValidationResult v name (len <=? max) defaultMessage)
  | OfTime _ | OfOther => (v, None)
  end.

Definition MinMax (v : Validation) (name : string) (obj : object) (min max : Z)
    : Validation * option ValidationResult :=
  let defaultMessage :=
    Sprintf "Must be larger %d and smaller %d" [AInt min; AInt max] in
  match obj with
  | Nil => some (addValidationResult v name false defaultMessage)
  | OfInt value =>
      some (addValidationResult v name
              ((value >=? min) && (value <=? max)) defaultMessage)
  | OfString value =>
      let n := Z.of_nat (String.length value) in
      some (addValidationResult v name ((n >=? min) && (n <=? max)) defaultMessage)
  | OfSlice len =>
      some (addValidationResult v name ((len >=? min) && (len <=? max))
              defaultMessage)
  | OfTime _ | OfOther => (v, None)
  end.

(** What [Required], [Min], [Max] and [MinMax] return: nil with the
    validation untouched, or what [addValidationResult] returns. *)
Definition added (v : Validation) (name : string)
    (r : Validation * option ValidationResult) : Prop :=
  r = (v, None) \/
  exists valid message, r = some (addValidationResult v name valid message).

End Validation.

(** ** A small engine to run the pipeline on

    Fragments are their source text; a text that opens an action and does
    not close it does not parse; executing a fragment writes its text. *)

Module Toy.
Import GoStrings Template.

Definition toy_parse (fm : gset string) (text : string) : string + string :=
  if Contains text "{{" && negb (Contains text "}}") then inr "unclosed action"
  else inl text.

Definition toy_execute (g : gmap string string) (t : string)
    (data : option (gmap string string)) : string * option string :=
  if Contains t "{{fail}}" then (EmptyString, Some "fail")
  else (t, None).

#[export] Instance engine : Engine := {|
  Request := unit;
  Val := string;
  tmpl := string;
  Parse := toy_parse;
  Execute := toy_execute
|}.

Definition quiet : Notify := {| NewWatcher := None; Watch := fun _ => None |}.

End Toy.

(** ** A small site to run the pipeline on *)

Module Site.
Import GoStrings Reflect Hooks FS Template Toy.

(** The manager of the directory [Views], as [newTemplateManager] makes
    it. *)
Definition tm0 : TemplateManager :=
  {| self := 1%nat;
     tm_hooks :=
       {| hlist := Some {[ TmBeforeParse := {| signiture := sigBeforeParse; handler := [] |};
                           TmBeforeRender := {| signiture := sigBeforeRender; handler := [] |} ]} |};
     directory := "views";
     watcher := None;
     tmplFuncs := builtinFuncs;
     tmplList := None |}.

(** A tree with two normal fragments and a static one. *)
Definition site : node :=
  Dir [("views",
        Dir [("a", Dir [("b.html", File "<b>{{.}}</b>")]);
             ("index.html", File "<p>index</p>");
             ("static", Dir [("x", Dir [("y.html", File "hello")])])])].

(** The same tree after an edit that breaks [index.html]. *)
Definition broken : node :=
  Dir [("views",
        Dir [("a", Dir [("b.html", File "<b>{{.}}</b>")]);
             ("index.html", File "<p>{{index</p>");
             ("static", Dir [("x", Dir [("y.html", File "hello")])])])].

(** The manager after the compilation of [site]. *)
Definition tm1 : TemplateManager :=
  match loadTemplates tm0 quiet site with
  | Done (tm, _, _) => tm
  | Panic _ => tm0
  end.

(** A BEFORE_RENDER handler that sets [user], and one that sets
    [title] to what [user] is. *)
Definition set_user : iface value :=
  Some {| dtype := sigBeforeRender;
          dval := RenderFn (fun _ _ _ args => <["user" := "ann"]> args) |}.

Definition set_title : iface value :=
  Some {| dtype := sigBeforeRender;
          dval := RenderFn (fun _ _ _ args =>
                              <["title" := default "" (args !! "user")]> args) |}.

(** A function of a defined type whose underlying type is the one of
    the BEFORE_RENDER hook. *)
Definition named_handler : dyn value :=
  {| dtype := {| tname := Some "main.Handler"; tkind := Func;
                 tunder := tunder sigBeforeRender; tmethods := [] |};
     dval := RenderFn (fun _ _ _ args => args) |}.

(** A value that is no function. *)
Definition an_int : dyn value :=
  {| dtype := {| tname := Some "int"; tkind := Int; tunder := "int"; tmethods := [] |};
     dval := Other |}.

(** The registry with [set_user] and then [set_title] attached. *)
Definition two_handlers : hooks value :=
  {| hlist := Some {[ TmBeforeParse := {| signiture := sigBeforeParse; handler := [] |};
                      TmBeforeRender := {| signiture := sigBeforeRender;
                                           handler := [set_user; set_title] |} ]} |}.

(** The registry with [named_handler] attached. *)
Definition defined_attached : hooks value :=
  {| hlist := Some {[ TmBeforeParse := {| signiture := sigBeforeParse; handler := [] |};
                      TmBeforeRender := {| signiture := sigBeforeRender;
                                           handler := [Some named_handler] |} ]} |}.

(** The manager of the compiled site with [named_handler] attached. *)
Definition tm3 : TemplateManager :=
  {| self := self tm1; tm_hooks := defined_attached; directory := directory tm1;
     watcher := watcher tm1; tmplFuncs := tmplFuncs tm1; tmplList := tmplList tm1 |}.

(** The manager of the compiled site with the two handlers. *)
Definition tm2 : TemplateManager :=
  {| self := self tm1; tm_hooks := two_handlers; directory := directory tm1;
     watcher := watcher tm1; tmplFuncs := tmplFuncs tm1; tmplList := tmplList tm1 |}.

End Site.

(** * Properties *)

(** ** Strings *)

Lemma append_cons (x : ascii) (a b : string) : String x a ++ b = String x (a ++ b).
Proof. reflexivity. Qed.

Lemma append_nil_l (b : string) : "" ++ b = b.
Proof. reflexivity. Qed.

Lemma append_nil_r (a : string) : a ++ "" = a.
Proof. induction a as [|x a IH]; [reflexivity|]. by rewrite append_cons, IH. Qed.

Lemma append_assoc (a b c : string) : (a ++ b) ++ c = a ++ (b ++ c).
Proof.
  induction a as [|x a IH]; [reflexivity|].
  rewrite !append_cons. f_equal. exact IH.
Qed.

Lemma append_not_nil (a b : string) (c : ascii) : a ++ String c b <> "".
Proof. by destruct a. Qed.

Lemma prefix_append (a b : string) : String.prefix a (a ++ b) = true.
Proof.
  induction a as [|x a IH]; [by destruct b|].
  rewrite append_cons. simpl. by destruct (ascii_dec x x).
Qed.

Lemma slice_from_append (a b : string) (c : ascii) :
  GoStrings.slice_from (a ++ String c b) (String.length a + 1) = Done b.
Proof.
  induction a as [|x a IH]; [reflexivity|].
  rewrite append_cons. exact IH.
Qed.

Lemma static_prefix (d rest : string) :
  GoStrings.HasPrefix (d ++ "/static/" ++ rest) (d ++ "/static/") = true.
Proof.
  unfold GoStrings.HasPrefix. rewrite <- (append_assoc d "/static/" rest).
  apply prefix_append.
Qed.

Lemma static_name (d rest : string) :
  GoStrings.slice_from (d ++ "/static/" ++ rest) (String.length d + 1)
  = Done ("static/" ++ rest).
Proof. apply (slice_from_append d ("static/" ++ rest) "/"). Qed.


Lemma bind_Done {A B : Type} (x : A) (k : A -> outcome B) : Done x ≫= k = k x.
Proof. reflexivity. Qed.


(** ** The helper functions *)

Section HelperFacts.
Import Fmt Helpers.

Ltac since_cases :=
  unfold since;
  repeat match goal with
         | |- context [?a <? ?b] => destruct (Z.ltb_spec a b); try lia
         end.

(** C6. For every elapsed number of seconds of a past timestamp, [since]
    yields the text its threshold table gives: below 60 "< 1 minute ago",
    below 120 "1 minute ago", below an hour the whole minutes, below two
    hours "1 hour ago", below a day the whole hours, below two days
    "1 day ago", below 30 days the whole days, below 60 days "1 month
    ago", below 360 days the whole 30-day months, and "> 1 year ago" from
    there on; 45 seconds give "< 1 minute ago" and 3 hours "3 hours
    ago". *)
Theorem since_thresholds (s : Z) :
  0 <= s ->
  (s < 60 -> since s = "< 1 minute ago") /\
  (60 <= s < 120 -> since s = "1 minute ago") /\
  (120 <= s < 3600 -> since s = itoa (s / 60) ++ " minutes ago") /\
  (3600 <= s < 7200 -> since s = "1 hour ago") /\
  (7200 <= s < 86400 -> since s = itoa (s / 3600) ++ " hours ago") /\
  (86400 <= s < 172800 -> since s = "1 day ago") /\
  (172800 <= s < 2592000 -> since s = itoa (s / 86400) ++ " days ago") /\
  (2592000 <= s < 5184000 -> since s = "1 month ago") /\
  (5184000 <= s < 31104000 -> since s = itoa (s / 2592000) ++ " months ago") /\
  (31104000 <= s -> since s = "> 1 year ago") /\
  since 45 = "< 1 minute ago" /\
  since (3 * 3600) = "3 hours ago".
Proof.
  intros Hpast.
  repeat split; try reflexivity; intros Hs; since_cases;
    try reflexivity; rewrite Z.quot_div_nonneg by lia; reflexivity.
Qed.

Lemma since_thresholds_witness :
  0 <= 150 /\ 120 <= 150 < 3600 /\ since 150 = "2 minutes ago".
Proof.
  assert (H0 : 0 <= 150) by lia.
  assert (H1 : 120 <= 150 < 3600) by lia.
  exact (conj H0 (conj H1
           (proj1 (proj2 (proj2 (since_thresholds 150 H0))) H1))).
Defined.

(** C7. [paginate] yields the empty string when there is one page; for
    page 3 of 10 with offset 1 it yields the first and previous links
    (previous to page 2), an ellipsis, the links of pages 2, 3 (active)
    and 4 and of no other page, an ellipsis, and the next (to page 4) and
    last links. *)
Theorem paginate_window :
  (forall curPage offset url, paginate curPage 1 offset url = "") /\
  (forall url,
     paginate 3 10 1 url =
     "<ul class='pagination'>" ++
     "<li><a href='" ++ url ++ "/page/first'>&laquo;First</a></li>" ++
     "<li><a href='" ++ url ++ "/page/2'>&laquo;</a></li>" ++
     "<li><span>...</span></li>" ++
     "<li><a href='" ++ url ++ "/page/2'>2</a></li>" ++
     "<li class='active'><a href='" ++ url ++ "/page/3'>3</a></li>" ++
     "<li><a href='" ++ url ++ "/page/4'>4</a></li>" ++
     "<li><span>...</span></li>" ++
     "<li><a href='" ++ url ++ "/page/4'>&raquo;</a></li>" ++
     "<li><a href='" ++ url ++ "/page/last'>Last&raquo;</a></li>" ++
     "</ul>").
Proof.
  split.
  - reflexivity.
  - intros url. vm_compute.
    repeat (rewrite ?append_assoc, ?append_cons, ?append_nil_l; f_equal).
Qed.

End HelperFacts.

(** ** Validation *)

Section ValidationFacts.
Import Fmt Validation.

Lemma addValidationResult_invalid (v : Validation) (name message : string) :
  recorded_invalid v name message
    (some (addValidationResult v name false message)).
Proof.
  unfold recorded_invalid, some, addValidationResult, messages; simpl.
  rewrite lookup_insert_eq; simpl.
  repeat split.
  - intros other Hne. by rewrite lookup_insert_ne.
  - eexists; repeat split.
    simpl. rewrite length_app; simpl.
    replace (Z.to_nat (Z.of_nat (length (default [] (errors v !! name)) + 1) - 1))
      with (length (default [] (errors v !! name)) + 0)%nat by lia.
    by rewrite lookup_app_r, Nat.add_0_r, Nat.sub_diag by lia.
Qed.

(** C9. [Min], [Max] and [MinMax] on a nil object record an invalid
    result: the message is appended under the name and [HasErrors] is
    set; on a non-nil object whose dynamic type is neither [int] nor
    [string] nor a slice they return nil and leave the validation as it
    was. *)
Theorem bounds_nil_and_unsupported (v : Validation) (name : string) (min max : Z) :
  recorded_invalid v name (Sprintf "Must be larger than %d" [AInt min])
    (Min v name Nil min) /\
  recorded_invalid v name (Sprintf "Must be smaller than %d" [AInt max])
    (Max v name Nil max) /\
  recorded_invalid v name
    (Sprintf "Must be larger %d and smaller %d" [AInt min; AInt max])
    (MinMax v name Nil min max) /\
  (forall obj, obj <> Nil -> int_string_or_slice obj = false ->
     Min v name obj min = (v, None) /\
     Max v name obj max = (v, None) /\
     MinMax v name obj min max = (v, None)).
Proof.
  repeat split; try apply addValidationResult_invalid;
    destruct obj; simpl in *; congruence.
Qed.

Lemma bounds_nil_and_unsupported_witness :
  Min {| HasErrors := false; errors := ∅ |} "age" (OfTime {| sec := 1; nsec := 0 |}) 18
  = ({| HasErrors := false; errors := ∅ |}, None).
Proof.
  apply (bounds_nil_and_unsupported {| HasErrors := false; errors := ∅ |} "age" 18 0);
    [discriminate | reflexivity].
Defined.

(** C10. [Required] on a [time.Time] records a result that is valid
    exactly when the time is the zero time, while for an [int], a
    [string] and a slice the result is valid exactly when the value is
    not zero, not empty. *)
Theorem required_time_polarity (v : Validation) (name : string) :
  (forall t, valid <$> (Required v name (OfTime t)).2 = Some (IsZero t)) /\
  (forall t, HasErrors (Required v name (OfTime t)).1
             = HasErrors v || negb (IsZero t)) /\
  (forall z, valid <$> (Required v name (OfInt z)).2 = Some (negb (z =? 0))) /\
  (forall s, valid <$> (Required v name (OfString s)).2
             = Some (negb (String.eqb s ""))) /\
  (forall n, valid <$> (Required v name (OfSlice n)).2 = Some (0 <? n)).
Proof.
  repeat split; intros x; unfold Required, some, addValidationResult.
  - by destruct (IsZero x).
  - destruct (IsZero x); simpl; [by rewrite orb_false_r | by rewrite orb_true_r].
  - by destruct (x =? 0).
  - by destruct x.
  - rewrite Z.gtb_ltb. by destruct (0 <? x).
Qed.

End ValidationFacts.

(** ** The hook registry *)

Section HookFacts.
Import Reflect Hooks.
Context {V : Type}.
Implicit Types (h : hooks V) (x : iface V).

Lemma AddHook_unknown h id x :
  find h id = None -> AddHook h id x = Done (h, Some ErrHookUnknownID).
Proof.
  unfold find, AddHook. destruct (hlist h) as [m|]; [|done].
  intros ->. done.
Qed.

Lemma AddHook_mismatch h id hk d :
  find h id = Some hk -> AssignableTo (dtype d) (signiture hk) = false ->
  AddHook h id (Some d) = Done (h, Some ErrHookInvalidHandler).
Proof.
  unfold find, AddHook. destruct (hlist h) as [m|]; [|done].
  intros -> Hna. simpl. by rewrite Hna.
Qed.

Lemma AddHook_inv h id x h' :
  AddHook h id x = Done (h', None) ->
  exists hk, find h id = Some hk /\
    find h' id = Some {| signiture := signiture hk;
                         handler := (handler hk ++ [x])%list |} /\
    forall other, other <> id -> find h' other = find h other.
Proof.
  unfold find, AddHook. destruct (hlist h) as [m|]; [|done].
  destruct (m !! id) as [hk|] eqn:Hid; [|done].
  destruct (TypeOf x); [|done].
  destruct (negb _); [done|].
  intros [= <-]. exists hk. simpl. split; [done|]. split.
  - by rewrite lookup_insert_eq.
  - intros other Hne. by rewrite lookup_insert_ne.
Qed.

Lemma AddHook_ok h id hk d :
  find h id = Some hk -> AssignableTo (dtype d) (signiture hk) = true ->
  exists h', AddHook h id (Some d) = Done (h', None).
Proof.
  unfold find, AddHook. destruct (hlist h) as [m|]; [|done].
  intros -> Ha. simpl. rewrite Ha. simpl. eauto.
Qed.

Lemma getHooks_find h id hk : find h id = Some hk -> getHooks h id = handler hk.
Proof. unfold getHooks. by intros ->. Qed.

(** C4. [AddHook] returns [ErrHookUnknownID] for a hook id that was not
    registered, whatever the handler; for a registered id and a handler
    whose type is not assignable to the signature it returns
    [ErrHookInvalidHandler] and leaves the registry, so the handlers of
    the id, as they were; and when the type is assignable it returns nil
    and the handler is the last of the handlers of the id, behind those
    attached before, the other hooks being untouched. *)
Theorem AddHook_checked h id :
  (forall x, find h id = None ->
     AddHook h id x = Done (h, Some ErrHookUnknownID)) /\
  (forall hk d, find h id = Some hk ->
     AssignableTo (dtype d) (signiture hk) = false ->
     AddHook h id (Some d) = Done (h, Some ErrHookInvalidHandler)) /\
  (forall hk d, find h id = Some hk ->
     AssignableTo (dtype d) (signiture hk) = true ->
     exists h', AddHook h id (Some d) = Done (h', None) /\
       getHooks h' id = (getHooks h id ++ [Some d])%list /\
       forall other, other <> id -> getHooks h' other = getHooks h other).
Proof.
  split; [|split].
  - intros x. apply AddHook_unknown.
  - intros hk d. apply AddHook_mismatch.
  - intros hk d Hid Ha.
    destruct (AddHook_ok h id hk d Hid Ha) as [h' Hadd].
    exists h'. split; [done|].
    destruct (AddHook_inv _ _ _ _ Hadd) as (hk' & Hid' & Hnew & Hother).
    rewrite Hid in Hid'. injection Hid' as <-.
    split.
    + by rewrite (getHooks_find _ _ _ Hnew), (getHooks_find _ _ _ Hid).
    + intros other Hne. unfold getHooks. by rewrite Hother.
Qed.

Lemma attached_find h l h' id hk :
  attached h l h' -> find h id = Some hk ->
  find h' id = Some {| signiture := signiture hk;
                       handler := (handler hk ++ handlers_for id l)%list |}.
Proof.
  intros Hatt. revert hk.
  induction Hatt as [h|h id' x h1 l h2 Hadd _ IH]; intros hk Hid.
  - unfold handlers_for. simpl. rewrite app_nil_r. by destruct hk.
  - destruct (AddHook_inv _ _ _ _ Hadd) as (hk' & Hid' & Hnew & Hother).
    unfold handlers_for. rewrite filter_cons. simpl.
    destruct (decide (id' = id)) as [->|Hne].
    + rewrite Hid in Hid'. injection Hid' as <-.
      rewrite (IH _ Hnew). simpl. by rewrite <- app_assoc.
    + rewrite (IH hk); [done|]. rewrite Hother by done. done.
Qed.

(** C8. After any sequence of successful calls of [AddHook] on a
    registry in which [id] is registered, [getHooks] yields for [id] the
    handlers it had before followed by the handlers attached to [id], in
    the order of the calls; for an id that is not registered, be the map
    nil or not, [getHooks] yields the nil slice. *)
Theorem getHooks_attach_order h id :
  (forall l h', is_Some (find h id) -> attached h l h' ->
     getHooks h' id = (getHooks h id ++ handlers_for id l)%list) /\
  (find h id = None -> getHooks h id = []) /\
  getHooks (V := V) {| hlist := None |} id = [].
Proof.
  split; [|split].
  - intros l h' [hk Hid] Hatt.
    rewrite (getHooks_find _ _ _ (attached_find _ _ _ _ _ Hatt Hid)).
    by rewrite (getHooks_find _ _ _ Hid).
  - unfold getHooks. by intros ->.
  - reflexivity.
Qed.

End HookFacts.

(** ** The file system *)

Section FSFacts.
Import FS.

Lemma node_nested_ind (P : node -> Prop) :
  (forall data, P (File data)) ->
  (forall es, Forall (fun e => P e.2) es -> P (Dir es)) ->
  forall n, P n.
Proof.
  intros HF HD. fix IH 1. intros [data|es]; [apply HF|]. apply HD.
  induction es as [|[nm c] es IHes]; constructor; [apply IH | exact IHes].
Qed.

Lemma assoc_put (c c' : string) (x : node) (es : list (string * node)) :
  assoc c (put c' x es) = if String.eqb c' c then Some x else assoc c es.
Proof.
  induction es as [|[n y] es IH]; simpl.
  - reflexivity.
  - destruct (String.eqb_spec n c') as [->|Hn]; simpl.
    + destruct (String.eqb_spec c' c); reflexivity.
    + destruct (String.ltb c' n); simpl.
      * destruct (String.eqb_spec c' c); reflexivity.
      * rewrite IH. destruct (String.eqb_spec n c) as [->|]; [|reflexivity].
        destruct (String.eqb_spec c' c); congruence.
Qed.

Lemma assoc_put_eq (c : string) (x : node) (es : list (string * node)) :
  assoc c (put c x es) = Some x.
Proof. by rewrite assoc_put, String.eqb_refl. Qed.

Lemma assoc_put_ne (c c' : string) (x : node) (es : list (string * node)) :
  c' <> c -> assoc c (put c' x es) = assoc c es.
Proof.
  intros Hne. rewrite assoc_put. by destruct (String.eqb_spec c' c).
Qed.

Lemma write_file_one (c data : string) (es : list (string * node)) :
  write_file [c] data (Dir es) =
  match assoc c es with
  | Some (Dir _) => None
  | _ => Some (Dir (put c (File data) es))
  end.
Proof. reflexivity. Qed.

Lemma write_file_more (c c' : string) (p : list string) (data : string)
    (es : list (string * node)) :
  write_file (c :: c' :: p) data (Dir es) =
  match assoc c es with
  | Some child =>
      match write_file (c' :: p) data child with
      | Some child' => Some (Dir (put c child' es))
      | None => None
      end
  | None => None
  end.
Proof. simpl. destruct (assoc c es); reflexivity. Qed.

Lemma write_file_File (p : list string) (data d : string) :
  write_file p data (File d) = None.
Proof. destruct p as [|? []]; reflexivity. Qed.

Lemma resolve_cons (c : string) (p : list string) (es : list (string * node)) :
  resolve (c :: p) (Dir es) =
  match assoc c es with
  | Some n => resolve p n
  | None => None
  end.
Proof. simpl. destruct (assoc c es); reflexivity. Qed.

(** What was written is what is read. *)
Lemma write_file_resolve (p : list string) (data : string) (n n' : node) :
  write_file p data n = Some n' -> resolve p n' = Some (File data).
Proof.
  revert n n'. induction p as [|c p IH]; intros n n'; [done|].
  destruct n as [d|es]; [by rewrite write_file_File|].
  destruct p as [|c' p'].
  - rewrite write_file_one.
    destruct (assoc c es) as [[?|?]|]; try done; intros [= <-];
      by rewrite resolve_cons, assoc_put_eq.
  - rewrite write_file_more.
    destruct (assoc c es) as [child|]; [|done].
    destruct (write_file (c' :: p') data child) as [child'|] eqn:Hw; [|done].
    intros [= <-]. rewrite resolve_cons, assoc_put_eq. by apply (IH child).
Qed.

(** A file that could be created can be written. *)
Lemma write_file_again (p : list string) (d d' : string) (n n1 : node) :
  write_file p d n = Some n1 -> is_Some (write_file p d' n1).
Proof.
  revert n n1. induction p as [|c p IH]; intros n n1; [done|].
  destruct n as [?|es]; [by rewrite write_file_File|].
  destruct p as [|c' p'].
  - rewrite write_file_one. intros Hw.
    assert (n1 = Dir (put c (File d) es)) as ->
      by (destruct (assoc c es) as [[?|?]|]; congruence).
    by rewrite write_file_one, assoc_put_eq.
  - rewrite write_file_more.
    destruct (assoc c es) as [child|]; [|done].
    destruct (write_file (c' :: p') d child) as [child'|] eqn:Hw; [|done].
    intros [= <-]. rewrite write_file_more, assoc_put_eq.
    by destruct (IH _ _ Hw) as [x ->].
Qed.

Lemma mkdir_all_cons (c : string) (p : list string) (es : list (string * node)) :
  mkdir_all (c :: p) (Dir es) =
  match mkdir_all p (default (Dir []) (assoc c es)) with
  | Some child' => Some (Dir (put c child' es))
  | None => None
  end.
Proof. simpl. by destruct (mkdir_all p _). Qed.

(** Making directories leaves every regular file as it is. *)
Lemma mkdir_all_keeps_files (p q : list string) (n n' : node) (d : string) :
  mkdir_all p n = Some n' -> resolve q n = Some (File d) ->
  resolve q n' = Some (File d).
Proof.
  revert q n n'. induction p as [|c p IH]; intros q n n'.
  - destruct n; simpl; congruence.
  - destruct n as [?|es]; [done|]. rewrite mkdir_all_cons.
    destruct (mkdir_all p (default (Dir []) (assoc c es))) as [child'|] eqn:Hm;
      [|done].
    intros [= <-]. destruct q as [|c' q]; [done|]. rewrite !resolve_cons.
    destruct (String.eqb_spec c c') as [<-|Hne].
    + rewrite assoc_put_eq.
      destruct (assoc c es) as [child|]; [|done]. by apply IH.
    + by rewrite assoc_put_ne.
Qed.

(** Writing a file leaves every regular file a regular file. *)
Lemma write_file_keeps_files (p q : list string) (data d : string) (n n' : node) :
  write_file p data n = Some n' -> resolve q n = Some (File d) ->
  exists d', resolve q n' = Some (File d').
Proof.
  revert q n n'. induction p as [|c p IH]; intros q n n'; [done|].
  destruct n as [?|es]; [by rewrite write_file_File|].
  destruct p as [|c' p'].
  - rewrite write_file_one. intros Hw.
    assert (n' = Dir (put c (File data) es) /\ forall es', assoc c es <> Some (Dir es'))
      as [-> Hnd] by (destruct (assoc c es) as [[?|?]|]; split; congruence).
    destruct q as [|c' q]; [done|]. rewrite !resolve_cons.
    destruct (String.eqb_spec c c') as [<-|Hne].
    + rewrite assoc_put_eq.
      destruct (assoc c es) as [[?|es']|]; [|by destruct (Hnd es')|done].
      destruct q; [eauto|done].
    + rewrite assoc_put_ne by done. eauto.
  - rewrite write_file_more.
    destruct (assoc c es) as [child|] eqn:Hc; [|done].
    destruct (write_file (c' :: p') data child) as [child'|] eqn:Hw; [|done].
    intros [= <-]. destruct q as [|c'' q]; [done|]. rewrite !resolve_cons.
    destruct (String.eqb_spec c c'') as [<-|Hne].
    + rewrite assoc_put_eq, Hc. by apply IH.
    + rewrite assoc_put_ne by done. eauto.
Qed.

Lemma ReadFile_resolve (fs : node) (path data : string) :
  ReadFile fs path = inl data <->
  path <> "" /\ resolve (components path) fs = Some (File data).
Proof.
  unfold ReadFile, Lstat. destruct (String.eqb_spec path "") as [->|Hne].
  - split; [done|]. by intros [[] _].
  - destruct (resolve (components path) fs) as [[?|?]|]; split;
      try done; try (intros [= ->]; done); try (by intros [_ [= ->]]);
      by intros [_ ?].
Qed.

End FSFacts.

(** ** The walk of [loadTemplates] *)

Section WalkFacts.
Import GoStrings Fmt Reflect Hooks FS Template.
Context `{Engine}.
Implicit Types (tm : TemplateManager) (nf : Notify) (st : walk_state).

Lemma keeps_files_refl (a : node) : keeps_files a a.
Proof. intros q d Hq. eauto. Qed.

Lemma keeps_files_trans (a b c : node) :
  keeps_files a b -> keeps_files b c -> keeps_files a c.
Proof. intros Hab Hbc q d Hq. destruct (Hab q d Hq) as [d' Hd']. eauto. Qed.

Lemma MkdirAll_keeps_files (a b : node) (path : string) :
  MkdirAll a path = inl b -> keeps_files a b.
Proof.
  unfold MkdirAll. destruct (String.eqb path ""); [done|].
  destruct (mkdir_all (components path) a) as [b'|] eqn:Hm; [|done].
  intros [= <-] q d Hq. exists d. eapply mkdir_all_keeps_files; eauto.
Qed.

Lemma Create_keeps_files (a b : node) (path : string) :
  Create a path = inl b -> keeps_files a b.
Proof.
  unfold Create.
  destruct (write_file (components path) "" a) as [b'|] eqn:Hw; [|done].
  intros [= <-] q d Hq. eapply write_file_keeps_files; eauto.
Qed.

Lemma Write_keeps_files (a : node) (path data : string) :
  keeps_files a (Write a path data).
Proof.
  unfold Write.
  destruct (write_file (components path) data a) as [b'|] eqn:Hw; simpl.
  - intros q d Hq. eapply write_file_keeps_files; eauto.
  - apply keeps_files_refl.
Qed.

(** After [Create], what is written to the file is what is read. *)
Lemma Create_Write_ReadFile (a b : node) (path data : string) :
  path <> "" -> Create a path = inl b ->
  ReadFile (Write b path data) path = inl data.
Proof.
  unfold Create, Write. intros Hne.
  destruct (write_file (components path) "" a) as [b'|] eqn:Hw; [|done].
  intros [= <-].
  destruct (write_file_again _ _ data _ _ Hw) as [c Hc]. rewrite Hc. simpl.
  apply ReadFile_resolve. split; [done|]. by apply (write_file_resolve _ _ _ _ Hc).
Qed.

Lemma emit_static_inv tm st g tmplName info fs' e :
  emit_static tm st g tmplName info = Done (fs', e) ->
  e <> Some SkipDir /\ keeps_files (fs st) fs'.
Proof.
  unfold emit_static.
  destruct (negb (HasPrefix tmplName "_") && negb (Contains tmplName "/_")).
  2: { intros [= <- <-]. split; [done | apply keeps_files_refl]. }
  destruct (_ <? 0); [done|].
  destruct (slice_to _ _) as [dir|]; [simpl|done].
  destruct (MkdirAll (fs st) dir) as [fs1|e1] eqn:Hm.
  2: { intros [= <- <-]. split; [|apply keeps_files_refl].
       unfold MkdirAll in Hm. destruct (String.eqb dir ""); [congruence|].
       destruct (mkdir_all _ _); congruence. }
  pose proof (MkdirAll_keeps_files _ _ _ Hm) as K1.
  destruct (Create fs1 _) as [fs2|e2] eqn:Hc.
  2: { intros [= <- <-]. split; [|done].
       unfold Create in Hc. destruct (write_file _ _ _); congruence. }
  pose proof (Create_keeps_files _ _ _ Hc) as K2.
  destruct (set g !! tmplName) as [t|]; [|done].
  destruct (Execute (set g) t None) as [out err].
  intros [= <- <-]. split; [by destruct err|].
  eapply keeps_files_trans; [exact K1|].
  eapply keeps_files_trans; [exact K2|]. apply Write_keeps_files.
Qed.

Lemma parse_into_inr (g : option group) (fm : gset string) (name text : string)
    (e : error) :
  parse_into g fm name text = inr e -> e <> SkipDir.
Proof. unfold parse_into. destruct (Parse _ text); congruence. Qed.

Lemma ReadFile_inr (a : node) (path : string) (e : error) :
  ReadFile a path = inr e -> e = PathError "open" path.
Proof. unfold ReadFile. destruct (Lstat a path) as [[?|?]|]; congruence. Qed.

(** On a directory: [SkipDir] for the skipped names, else the directory
    is handed to the watcher. *)
Lemma walkFn_dir tm nf st path name :
  exists st',
    walkFn tm nf st path (Some {| Name := name; IsDir := true |}) =
      Done (if skipped name then (st, Some SkipDir) else (st', None)) /\
    fs st' = fs st /\ templates st' = templates st /\
    staticTemplates st' = staticTemplates st.
Proof.
  unfold walkFn, skipped. simpl.
  destruct (HasPrefix name "." || String.eqb name "_static"); [by exists st|].
  destruct (Watch nf _); eexists; split; done.
Qed.

(** On a file: never [SkipDir], and no regular file is lost. *)
Lemma walkFn_file tm nf st path info st' e :
  IsDir info = false ->
  walkFn tm nf st path (Some info) = Done (st', e) ->
  e <> Some SkipDir /\ keeps_files (fs st) (fs st').
Proof.
  unfold walkFn. intros ->.
  destruct (HasSuffix (Name info) ".html").
  2: { intros [= <- <-]. split; [done | apply keeps_files_refl]. }
  destruct (ReadFile _ _) as [fdata|e1] eqn:Hr.
  2: { intros [= <- <-]. split; [|apply keeps_files_refl].
       rewrite (ReadFile_inr _ _ _ Hr). done. }
  destruct (slice_from _ _) as [tmplName|]; [simpl|done].
  destruct (HasPrefix _ _).
  - destruct (parse_into (staticTemplates st) _ _ _) as [g|e1] eqn:Hp.
    2: { intros [= <- <-]. split; [|apply keeps_files_refl].
         intros [= ->]. by apply (parse_into_inr _ _ _ _ _ Hp). }
    destruct (emit_static tm st g tmplName info) as [[fs' e2]|] eqn:He; [|done].
    simpl. intros [= <- <-]. simpl. by apply (emit_static_inv _ _ _ _ _ _ _ He).
  - destruct (fire_parse _ _ _ _) as [fdata'|]; [simpl|done].
    destruct (parse_into (templates st) _ _ _) as [g|e1] eqn:Hp.
    2: { intros [= <- <-]. split; [|apply keeps_files_refl].
         intros [= ->]. by apply (parse_into_inr _ _ _ _ _ Hp). }
    intros [= <- <-]. split; [done | apply keeps_files_refl].
Qed.

Lemma walkFn_keeps_files tm nf st path info st' e :
  walkFn tm nf st path (Some info) = Done (st', e) ->
  keeps_files (fs st) (fs st').
Proof.
  destruct info as [name [|]].
  - destruct (walkFn_dir tm nf st path name) as (st1 & -> & Hfs & _).
    destruct (skipped name); intros [= <- <-];
      [|rewrite Hfs]; apply keeps_files_refl.
  - intros Hw. by apply (walkFn_file tm nf st path {| Name := name; IsDir := false |} st' e eq_refl Hw).
Qed.

Lemma run_cons tm nf path info l st :
  run tm nf ((path, info) :: l) st =
  (r ← walkFn tm nf st path (Some info);
   match r with
   | (st', Some e) =>
       if decide (e = SkipDir) then run tm nf l st' else Done (st', Some e)
   | (st', None) => run tm nf l st'
   end).
Proof. reflexivity. Qed.

Lemma run_app tm nf l1 l2 st :
  run tm nf (l1 ++ l2) st =
  (r ← run tm nf l1 st;
   match r with
   | (st', None) => run tm nf l2 st'
   | (st', Some e) => Done (st', Some e)
   end).
Proof.
  revert st. induction l1 as [|[path info] l1 IH]; intros st; [done|].
  rewrite <- app_comm_cons, !run_cons.
  destruct (walkFn tm nf st path (Some info)) as [[st' [e|]]|]; simpl;
    [|apply IH|done].
  destruct (decide (e = SkipDir)); [apply IH | done].
Qed.

Lemma run_no_SkipDir tm nf l st st' e :
  run tm nf l st = Done (st', Some e) -> e <> SkipDir.
Proof.
  revert st. induction l as [|[path info] l IH]; intros st; [done|].
  rewrite run_cons.
  destruct (walkFn tm nf st path (Some info)) as [[st1 [e1|]]|]; simpl;
    [|apply IH|done].
  destruct (decide (e1 = SkipDir)); [apply IH | congruence].
Qed.

Lemma run_keeps_files tm nf l st st' e :
  run tm nf l st = Done (st', e) -> keeps_files (fs st) (fs st').
Proof.
  revert st. induction l as [|[path info] l IH]; intros st.
  - intros [= <- <-]. apply keeps_files_refl.
  - rewrite run_cons.
    destruct (walkFn tm nf st path (Some info)) as [[st1 e1]|] eqn:Hw; [|done].
    pose proof (walkFn_keeps_files _ _ _ _ _ _ _ Hw) as K. simpl.
    assert (run tm nf l st1 = Done (st', e) -> keeps_files (fs st) (fs st'))
      by (intros Hr; eapply keeps_files_trans; [exact K | by apply IH]).
    destruct e1 as [e1|]; [|done].
    destruct (decide (e1 = SkipDir)); [done|].
    by intros [= <- <-].
Qed.

Lemma walk_Dir tm nf path name es st :
  walk (walkFn tm nf) path name (Dir es) st =
  (r ← walkFn tm nf st path (Some {| Name := name; IsDir := true |});
   match r with
   | (st1, Some e) => Done (st1, Some e)
   | (st1, None) => walk_names (walkFn tm nf) path es st1
   end).
Proof. reflexivity. Qed.

Lemma walk_run tm nf n :
  forall path name st,
    walk (walkFn tm nf) path name n st =
    (r ← run tm nf (visits path name n) st; Done (mark name n r)).
Proof.
  induction n as [data|es IH] using node_nested_ind; intros path name st.
  - change (walk (walkFn tm nf) path name (File data) st)
      with (walkFn tm nf st path (Some {| Name := name; IsDir := false |})).
    change (visits path name (File data))
      with [(path, {| Name := name; IsDir := false |})].
    rewrite run_cons.
    destruct (walkFn tm nf st path _) as [[st' e]|] eqn:Hw; [|done].
    destruct (walkFn_file tm nf st path {| Name := name; IsDir := false |} st' e eq_refl Hw) as [Hns _]. simpl.
    destruct e as [e|]; [|done].
    destruct (decide (e = SkipDir)) as [->|]; [done|done].
  - rewrite walk_Dir.
    change (visits path name (Dir es))
      with ((path, {| Name := name; IsDir := true |}) ::
            (if skipped name then [] else visits_names path es)).
    rewrite run_cons.
    destruct (walkFn_dir tm nf st path name) as (st1 & -> & _).
    destruct (skipped name) eqn:Hsk; simpl.
    { by rewrite Hsk. }
    clear st. revert st1.
    induction IH as [|[nm child] es IHc _ IHes]; intros st; [simpl; by rewrite Hsk|].
    change (walk_names (walkFn tm nf) path ((nm, child) :: es) st)
      with (r ← walk (walkFn tm nf) (Join path nm) nm child st;
            match r with
            | (st', Some e) =>
                if negb (is_dir child) || negb (bool_decide (e = SkipDir))
                then Done (st', Some e)
                else walk_names (walkFn tm nf) path es st'
            | (st', None) => walk_names (walkFn tm nf) path es st'
            end).
    change (visits_names path ((nm, child) :: es))
      with (visits (Join path nm) nm child ++ visits_names path es)%list.
    rewrite run_app. simpl in IHc. rewrite IHc.
    destruct (run tm nf (visits (Join path nm) nm child) st)
      as [[st' [e|]]|] eqn:Hr; simpl; [| |done].
    + pose proof (run_no_SkipDir _ _ _ _ _ _ Hr) as Hns.
      rewrite (bool_decide_eq_false_2 _ Hns). simpl.
      by rewrite orb_true_r.
    + destruct (is_dir child && skipped nm) eqn:Hd; [|apply IHes].
      apply andb_prop in Hd as [-> _]. simpl. apply IHes.
Qed.

(** [filepath.Walk] with the function of [loadTemplates] makes the calls
    of [visits], in order, up to the first error. *)
Lemma Walk_run tm nf fs0 n st :
  Lstat fs0 (directory tm) = Some n ->
  Walk fs0 (directory tm) (walkFn tm nf) st =
  run tm nf (visits (directory tm) (base (directory tm)) n) st.
Proof.
  intros Hl. unfold Walk. rewrite Hl, walk_run.
  destruct (run tm nf _ st) as [[st' [e|]]|] eqn:Hr; simpl; [| |done].
  - by rewrite decide_False by apply (run_no_SkipDir _ _ _ _ _ _ Hr).
  - by destruct (is_dir n && skipped _).
Qed.

End WalkFacts.

(** ** Lookup and render *)

Section RenderFacts.
Import GoStrings Fmt Reflect Hooks FS Template.
Context `{Engine}.
Implicit Types (tm : TemplateManager) (nf : Notify) (st : walk_state).

Lemma not_found_message (name : string) :
  Sprintf "can't find template '%s'" [AStr name]
  = "can't find template '" ++ name ++ "'".
Proof. reflexivity. Qed.

Lemma render_failed_message (msg : string) :
  Sprintf "failed to render template. Reason: %s" [AStr msg]
  = "failed to render template. Reason: " ++ msg.
Proof.
  change (Sprintf "failed to render template. Reason: %s" [AStr msg])
    with ("failed to render template. Reason: " ++ (msg ++ "")).
  by rewrite append_nil_r.
Qed.

(** A normal fragment is registered under the normal form of its path,
    cut after the directory of the manager. *)
Lemma walkFn_registers tm nf st path info st' :
  IsDir info = false -> HasSuffix (Name info) ".html" = true ->
  HasPrefix (normalize path) (directory tm ++ "/static/") = false ->
  walkFn tm nf st path (Some info) = Done (st', None) ->
  exists tmplName g t,
    slice_from (normalize path) (String.length (directory tm) + 1)
      = Done tmplName /\
    templates st' = Some g /\ set g !! tmplName = Some t.
Proof.
  unfold walkFn. intros -> -> ->.
  destruct (ReadFile _ _) as [fdata|]; [|done].
  destruct (slice_from _ _) as [tmplName|]; [simpl|done].
  destruct (fire_parse _ _ _ _) as [fdata'|]; [simpl|done].
  unfold parse_into. destruct (Parse _ fdata') as [t|]; [|done].
  intros [= <-]. exists tmplName. eexists _, t.
  split; [done|]. split; [reflexivity|]. apply lookup_insert_eq.
Qed.

(** C3, as the code has it. [getTemplate] yields the fragment the
    installed group holds under the lower-cased name, backslashes kept
    as they are; it yields nil exactly when no group is installed or the
    installed group has no fragment under the lower-cased name. The
    names of the group are the normal forms of the paths of the
    fragments, relative to the directory. *)
Theorem getTemplate_lowercase tm name :
  (forall g, tmplList tm = Some g ->
     snd <$> getTemplate tm name = set g !! ToLower name) /\
  (getTemplate tm name = None <->
     tmplList tm = None \/
     exists g, tmplList tm = Some g /\ set g !! ToLower name = None) /\
  (forall nf st path info st',
     IsDir info = false -> HasSuffix (Name info) ".html" = true ->
     HasPrefix (normalize path) (directory tm ++ "/static/") = false ->
     walkFn tm nf st path (Some info) = Done (st', None) ->
     exists tmplName g t,
       slice_from (normalize path) (String.length (directory tm) + 1)
         = Done tmplName /\
       templates st' = Some g /\ set g !! tmplName = Some t).
Proof.
  unfold getTemplate. split; [|split].
  - intros g ->. by destruct (set g !! ToLower name).
  - destruct (tmplList tm) as [g|]; [|by split; [left|]].
    destruct (set g !! ToLower name) eqn:Hl; simpl; split; try done.
    + intros [|(g' & [= <-] & ?)]; congruence.
    + right. eauto.
  - apply walkFn_registers.
Qed.

Lemma fire_render_fired (hs : list (iface value)) req p t args tr :
  Forall (fun hook => exists f, asBeforeRender hook = Done f) hs ->
  exists evs args',
    fired req p t hs args evs args' /\
    fire_render hs req p t args tr = Done (args', (tr ++ evs)%list).
Proof.
  intros Hty. revert args tr.
  induction Hty as [|hook hs [f Hf] _ IH]; intros args tr.
  - exists [], args. split; [constructor|]. simpl. by rewrite app_nil_r.
  - destruct (IH (f req p t args) (tr ++ [Fired hook req p t args])%list)
      as (evs & args' & Hfired & Hrun).
    exists (Fired hook req p t args :: evs), args'. split.
    + by apply fired_cons with f.
    + simpl. rewrite Hf. simpl. rewrite Hrun. by rewrite <- app_assoc.
Qed.

(** What [fired] relates is what the loop computes. *)
Lemma fired_fire_render (hs : list (iface value)) req p t args evs args' tr :
  fired req p t hs args evs args' ->
  fire_render hs req p t args tr = Done (args', (tr ++ evs)%list).
Proof.
  intros Hf. revert tr.
  induction Hf as [args|hook f hs args evs args' Hhook _ IH]; intros tr.
  - simpl. by rewrite app_nil_r.
  - simpl. rewrite Hhook. simpl. rewrite IH. by rewrite <- app_assoc.
Qed.

(** [RenderTemplate] returns the error "can't find template" exactly when
    [getTemplate] yields nil for the name. Otherwise, when every handler
    of the BEFORE_RENDER hook passes the type assertion, it calls them in
    the order of [getHooks], each with the request, the manager, the
    fragment found and the argument map as the handlers before left it,
    and then executes the fragment on that map to the writer; when the
    execution fails it returns an error whose message ends with the
    message of the failure. *)
Theorem RenderTemplate_order tm req name args :
  (getTemplate tm name = None ->
     RenderTemplate tm req name args =
     Done ([], "", Some (Errorf ("can't find template '" ++ ToLower name ++ "'")))) /\
  (forall tr out,
     RenderTemplate tm req name args =
     Done (tr, out, Some (Errorf ("can't find template '" ++ ToLower name ++ "'"))) ->
     getTemplate tm name = None) /\
  (forall g t,
     getTemplate tm name = Some (g, t) ->
     Forall (fun hook => exists f, asBeforeRender hook = Done f)
            (getHooks (tm_hooks tm) TmBeforeRender) ->
     exists evs args',
       fired req (self tm) t (getHooks (tm_hooks tm) TmBeforeRender) args evs args' /\
       RenderTemplate tm req name args =
       Done ((evs ++ [Executed t args' (Execute (set g) t (Some args')).1])%list,
             (Execute (set g) t (Some args')).1,
             match (Execute (set g) t (Some args')).2 with
             | Some msg =>
                 Some (Errorf ("failed to render template. Reason: " ++ msg))
             | None => None
             end)).
Proof.
  unfold RenderTemplate. split; [|split].
  - intros ->. by rewrite not_found_message.
  - intros tr out. destruct (getTemplate tm name) as [[g t]|]; [|done].
    destruct (fire_render _ _ _ _ _ _) as [[args' evs]|]; [simpl|done].
    destruct (Execute (set g) t (Some args')) as [out' [msg|]]; [|done].
    rewrite render_failed_message. intros [=].
  - intros g t -> Hty.
    destruct (fire_render_fired _ req (self tm) t args [] Hty)
      as (evs & args' & Hfired & ->).
    exists evs, args'. split; [done|]. simpl.
    destruct (Execute (set g) t (Some args')) as [out [msg|]]; simpl;
      [by rewrite render_failed_message | done].
Qed.

End RenderFacts.

(** ** Compilation *)


Section CompileFacts.
Import GoStrings Fmt Reflect Hooks FS Template.
Context `{Engine}.
Implicit Types (tm : TemplateManager) (nf : Notify) (st : walk_state).

Lemma read_or_parse_error_walkFn tm nf st path info e :
  read_or_parse_error tm st path info e ->
  exists st', walkFn tm nf st path (Some info) = Done (st', Some e) /\ e <> SkipDir.
Proof.
  intros (Hfile & Hsuf & Herr). unfold walkFn. rewrite Hfile, Hsuf.
  simpl in Herr. destruct Herr as [Hr|(fdata & tmplName & Hr & Hs & Hp)].
  - rewrite Hr. eexists. split; [done|]. by rewrite (ReadFile_inr _ _ _ Hr).
  - rewrite Hr, Hs. simpl. destruct (HasPrefix _ _).
    + rewrite Hp. eexists. split; [done|]. by apply (parse_into_inr _ _ _ _ _ Hp).
    + destruct Hp as (fdata' & -> & Hp). simpl. rewrite Hp.
      eexists. split; [done|]. by apply (parse_into_inr _ _ _ _ _ Hp).
Qed.

(** The walk stops at the first call that returns an error. *)
Lemma run_stops tm nf pre path info post st0 st st' e :
  run tm nf pre st0 = Done (st, None) ->
  walkFn tm nf st path (Some info) = Done (st', Some e) -> e <> SkipDir ->
  run tm nf (pre ++ (path, info) :: post) st0 = Done (st', Some e).
Proof.
  intros Hpre Hw Hns. rewrite run_app, Hpre, bind_Done. cbv beta iota.
  rewrite run_cons, Hw. simpl. by rewrite decide_False.
Qed.

Lemma loadTemplates_Done tm nf fs0 tm' fs' ret :
  loadTemplates tm nf fs0 = Done (tm', fs', ret) ->
  self tm' = self tm /\ tm_hooks tm' = tm_hooks tm /\
  (NewWatcher nf = ret /\ tmplList tm' = tmplList tm /\ is_Some ret \/
   NewWatcher nf = None /\
   exists st, Walk fs0 (directory tm) (walkFn tm nf) (walk_start fs0) = Done (st, ret) /\
     fs' = fs st /\
     tmplList tm' = match ret with
                    | None => templates st
                    | Some _ => tmplList tm
                    end).
Proof.
  unfold loadTemplates. destruct (NewWatcher nf) as [err|].
  - intros [= <- <- <-]. simpl. split; [done|]. split; [done|]. left. eauto.
  - destruct (Walk _ _ _ _) as [[st r]|]; [simpl|done].
    intros [= <- <- <-]. simpl. split; [done|]. split; [done|]. right.
    split; [done|]. by exists st.
Qed.

Lemma Walk_Done tm nf fs0 st0 st ret :
  Walk fs0 (directory tm) (walkFn tm nf) st0 = Done (st, ret) ->
  exists n, Lstat fs0 (directory tm) = Some n /\
    run tm nf (visits (directory tm) (base (directory tm)) n) st0 = Done (st, ret).
Proof.
  destruct (Lstat fs0 (directory tm)) as [n|] eqn:Hl.
  - rewrite (Walk_run _ _ _ _ _ Hl). eauto.
  - unfold Walk. rewrite Hl. done.
Qed.

(** C2. When [loadTemplates] returns an error, [tmplList] is what it
    was, so [getTemplate] and [RenderTemplate] answer as before; when it
    returns nil, [tmplList] is the group the walk has built. It returns
    the error of the first fragment file that cannot be read or
    parsed. *)
Theorem loadTemplates_swap tm nf fs0 :
  (forall tm' fs' e,
     loadTemplates tm nf fs0 = Done (tm', fs', Some e) ->
     tmplList tm' = tmplList tm /\
     (forall name, getTemplate tm' name = getTemplate tm name) /\
     (forall req name args,
        RenderTemplate tm' req name args = RenderTemplate tm req name args)) /\
  (forall tm' fs',
     loadTemplates tm nf fs0 = Done (tm', fs', None) ->
     exists n st,
       Lstat fs0 (directory tm) = Some n /\
       run tm nf (visits (directory tm) (base (directory tm)) n) (walk_start fs0)
         = Done (st, None) /\
       tmplList tm' = templates st) /\
  (forall n pre path info post st e,
     NewWatcher nf = None ->
     Lstat fs0 (directory tm) = Some n ->
     visits (directory tm) (base (directory tm)) n = (pre ++ (path, info) :: post)%list ->
     run tm nf pre (walk_start fs0) = Done (st, None) ->
     read_or_parse_error tm st path info e ->
     exists tm' fs',
       loadTemplates tm nf fs0 = Done (tm', fs', Some e) /\
       tmplList tm' = tmplList tm).
Proof.
  split; [|split].
  - intros tm' fs' e Hload.
    destruct (loadTemplates_Done _ _ _ _ _ _ Hload)
      as (Hself & Hhooks & [(_ & Hl & _)|(_ & st & _ & _ & Hl)]);
      (split; [exact Hl|]); split.
    all: try (intros name; unfold getTemplate; by rewrite Hl).
    all: intros req name args; unfold RenderTemplate, getTemplate;
      by rewrite Hl, Hhooks, Hself.
  - intros tm' fs' Hload.
    destruct (loadTemplates_Done _ _ _ _ _ _ Hload)
      as (_ & _ & [(_ & _ & [? [=]])|(_ & st & Hwalk & _ & Hl)]).
    destruct (Walk_Done _ _ _ _ _ _ Hwalk) as (n & Hn & Hrun). eauto.
  - intros n pre path info post st e Hnw Hn Hvis Hpre Herr.
    destruct (read_or_parse_error_walkFn tm nf _ _ _ _ Herr) as (st' & Hw & Hns).
    unfold loadTemplates. rewrite Hnw, (Walk_run _ _ _ _ _ Hn), Hvis.
    rewrite (run_stops tm nf pre path info post _ st st' e Hpre Hw Hns).
    simpl. eauto.
Qed.

Lemma run_None_split tm nf pre path info post st0 stf :
  IsDir info = false ->
  run tm nf (pre ++ (path, info) :: post) st0 = Done (stf, None) ->
  exists st st',
    run tm nf pre st0 = Done (st, None) /\
    walkFn tm nf st path (Some info) = Done (st', None) /\
    run tm nf post st' = Done (stf, None).
Proof.
  intros Hfile. rewrite run_app.
  destruct (run tm nf pre st0) as [[st [e|]]|]; [done| |done].
  rewrite bind_Done. cbv beta iota. rewrite run_cons.
  destruct (walkFn tm nf st path (Some info)) as [[st' e]|] eqn:Hw; [|done].
  destruct (walkFn_file _ _ _ _ _ _ _ Hfile Hw) as [Hns _]. simpl.
  destruct e as [e|].
  - destruct (decide (e = SkipDir)) as [->|]; [done|done].
  - intros Hpost. by exists st, st'.
Qed.

(** A static fragment that is parsed and has no marked element is
    rendered into the tree [_static]. *)
Lemma walkFn_emits tm nf st path info rest st' :
  IsDir info = false -> HasSuffix (Name info) ".html" = true ->
  normalize path = directory tm ++ "/static/" ++ rest ->
  Contains ("static/" ++ rest) "/_" = false ->
  walkFn tm nf st path (Some info) = Done (st', None) ->
  exists fdata g t,
    ReadFile (fs st) (normalize path) = inl fdata /\
    parse_into (staticTemplates st) ∅ ("static/" ++ rest) fdata = inl g /\
    set g !! ("static/" ++ rest) = Some t /\
    ReadFile (fs st') (directory tm ++ "/_static/" ++ rest)
      = inl (Execute (set g) t None).1.
Proof.
  unfold walkFn. intros -> -> Hpath Hmark.
  rewrite Hpath, static_prefix, static_name. rewrite <- Hpath.
  destruct (ReadFile (fs st) (normalize path)) as [fdata|] eqn:Hr; [|done]. simpl.
  destruct (parse_into _ _ _ _) as [g|] eqn:Hp; [|done].
  unfold emit_static. rewrite Hmark.
  change (HasPrefix ("static/" ++ rest) "_") with false. simpl negb. simpl andb.
  cbv iota.
  destruct (_ <? 0); [done|].
  destruct (slice_to _ _) as [dir|]; [simpl|done].
  destruct (MkdirAll (fs st) dir) as [fs1|]; [|done].
  destruct (Create fs1 _) as [fs2|] eqn:Hc; [|done].
  destruct (set g !! ("static/" ++ rest)) as [t|] eqn:Ht; [|done].
  destruct (Execute (set g) t None) as [out [msg|]] eqn:He; [done|].
  intros [= <-]. simpl. exists fdata, g, t. rewrite He. simpl.
  repeat split; try done.
  apply Create_Write_ReadFile with fs1; [apply append_not_nil | exact Hc].
Qed.

(** C1, as the code has it. When [loadTemplates] returns nil, every
    static fragment file it has visited, [static/<rest>] below the
    directory, with no element of its name beginning with the marker,
    was parsed into the static group and rendered with nil data into
    [_static/<rest>] below the directory: after the call for the
    fragment that file holds the rendered output, and it is a regular
    file when [loadTemplates] returns. The walk of a later compilation
    hands the directory [_static] to the function, which skips it with
    nothing changed, and none of its entries. *)
Theorem static_fragment_emitted tm nf fs0 :
  (forall tm' fs' n pre path info post rest,
     loadTemplates tm nf fs0 = Done (tm', fs', None) ->
     Lstat fs0 (directory tm) = Some n ->
     visits (directory tm) (base (directory tm)) n = (pre ++ (path, info) :: post)%list ->
     IsDir info = false -> HasSuffix (Name info) ".html" = true ->
     normalize path = directory tm ++ "/static/" ++ rest ->
     Contains ("static/" ++ rest) "/_" = false ->
     exists st st' fdata g t,
       run tm nf pre (walk_start fs0) = Done (st, None) /\
       walkFn tm nf st path (Some info) = Done (st', None) /\
       ReadFile (fs st) (normalize path) = inl fdata /\
       parse_into (staticTemplates st) ∅ ("static/" ++ rest) fdata = inl g /\
       set g !! ("static/" ++ rest) = Some t /\
       ReadFile (fs st') (directory tm ++ "/_static/" ++ rest)
         = inl (Execute (set g) t None).1 /\
       exists d, ReadFile fs' (directory tm ++ "/_static/" ++ rest) = inl d) /\
  (forall path es st,
     walk (walkFn tm nf) path "_static" (Dir es) st = Done (st, Some SkipDir) /\
     visits path "_static" (Dir es) = [(path, {| Name := "_static"; IsDir := true |})]).
Proof.
  split.
  - intros tm' fs' n pre path info post rest Hload Hn Hvis Hfile Hsuf Hpath Hmark.
    destruct (loadTemplates_Done _ _ _ _ _ _ Hload)
      as (_ & _ & [(_ & _ & [? [=]])|(_ & stf & Hwalk & -> & _)]).
    rewrite (Walk_run _ _ _ _ _ Hn), Hvis in Hwalk.
    destruct (run_None_split _ _ _ _ _ _ _ _ Hfile Hwalk)
      as (st & st' & Hpre & Hw & Hpost).
    destruct (walkFn_emits _ _ _ _ _ _ _ Hfile Hsuf Hpath Hmark Hw)
      as (fdata & g & t & Hr & Hp & Ht & Hout).
    exists st, st', fdata, g, t. repeat (split; [done|]).
    apply ReadFile_resolve in Hout as [Hne Hres].
    destruct (run_keeps_files _ _ _ _ _ _ Hpost _ _ Hres) as [d Hd].
    exists d. by apply ReadFile_resolve.
  - intros path es st. split; reflexivity.
Qed.

End CompileFacts.

(** ** More on the hook registry *)

Section MoreHookFacts.
Import Reflect Hooks.
Context {V : Type}.
Implicit Types (h : hooks V) (x : iface V).

Lemma registerHook_inv h id sig h' e :
  registerHook h id sig = Done (h', e) ->
  (exists hk, find h id = Some hk /\ e = Some ErrHookDuplicateID /\
     forall i, find h' i = find h i) \/
  (find h id = None /\ exists s, sig = Some s /\
     ((tkind s <> Func /\ e = Some ErrHookInvalidHandler /\
       forall i, find h' i = find h i) \/
      (tkind s = Func /\ e = None /\
       find h' id = Some {| signiture := s; handler := [] |} /\
       forall i, i <> id -> find h' i = find h i))).
Proof.
  assert (Hcase : exists m, (forall i, find h i = m !! i) /\
            m = match hlist h with Some m => m | None => ∅ end).
  { unfold find. destruct (hlist h) as [m|]; eexists; split; try done.
    intros i. by rewrite lookup_empty. }
  destruct Hcase as (m & Hm & Heq). unfold registerHook. rewrite <- Heq.
  cbv zeta. rewrite (Hm id).
  assert (Hfind : forall (m' : gmap Z (hook V)) i,
            find {| hlist := Some m' |} i = m' !! i) by done.
  destruct (m !! id) as [hk|] eqn:Hid.
  - intros [= <- <-]. left. exists hk. split; [done|]. split; [done|].
    intros i. by rewrite Hfind, Hm.
  - destruct sig as [s|]; [|done].
    destruct (bool_decide (tkind s = Func)) eqn:Hk; simpl in *.
    + apply bool_decide_eq_true_1 in Hk. intros [= <- <-].
      right. split; [done|]. exists s. split; [done|]. right.
      split; [done|]. split; [done|]. rewrite !Hfind. split.
      * by rewrite lookup_insert_eq.
      * intros i Hne. rewrite Hfind, lookup_insert_ne by done. by rewrite Hm.
    + apply bool_decide_eq_false_1 in Hk. intros [= <- <-].
      right. split; [done|]. exists s. split; [done|]. left.
      split; [done|]. split; [done|]. intros i. by rewrite Hfind, Hm.
Qed.

(** X1. [registerHook] on an id that is registered returns
    [ErrHookDuplicateID], whatever the signature, and on a free id with a
    signature that is no function type [ErrHookInvalidHandler]; both leave
    every hook as it was. On a free id with a function type it returns nil,
    the id has that signature and no handler, and the other hooks are as
    they were. *)
Theorem registerHook_checked h id :
  (forall sig, is_Some (find h id) ->
     exists h', registerHook h id sig = Done (h', Some ErrHookDuplicateID) /\
       forall i, find h' i = find h i) /\
  (forall s, find h id = None -> tkind s <> Func ->
     exists h', registerHook h id (Some s) = Done (h', Some ErrHookInvalidHandler) /\
       forall i, find h' i = find h i) /\
  (forall s, find h id = None -> tkind s = Func ->
     exists h', registerHook h id (Some s) = Done (h', None) /\
       find h' id = Some {| signiture := s; handler := [] |} /\
       getHooks h' id = [] /\
       forall i, i <> id -> find h' i = find h i).
Proof.
  split; [|split].
  - intros sig [hk Hid].
    destruct (registerHook h id sig) as [[h' e]|] eqn:Hr.
    + destruct (registerHook_inv _ _ _ _ _ Hr)
        as [(hk' & _ & -> & Hsame)|(Hnone & _)]; [eauto | congruence].
    + exfalso. revert Hr. unfold registerHook, find in *.
      destruct (hlist h) as [m|]; [|done]. by rewrite Hid.
  - intros s Hid Hk.
    destruct (registerHook h id (Some s)) as [[h' e]|] eqn:Hr.
    + destruct (registerHook_inv _ _ _ _ _ Hr)
        as [(hk' & Hsome & _)|(_ & s' & [= <-] & [(_ & -> & Hsame)|(Hf & _)])];
        [congruence | eauto | done].
    + exfalso. revert Hr. unfold registerHook.
      destruct (_ !! id); [done|]. by destruct (negb _).
  - intros s Hid Hk.
    destruct (registerHook h id (Some s)) as [[h' e]|] eqn:Hr.
    + destruct (registerHook_inv _ _ _ _ _ Hr)
        as [(hk' & Hsome & _)|(_ & s' & [= <-] & [(Hnf & _)|(_ & -> & Hnew & Hother)])];
        [congruence | done |].
      exists h'. split; [done|]. split; [done|]. split; [|done].
      unfold getHooks. by rewrite Hnew.
    + exfalso. revert Hr. unfold registerHook.
      destruct (_ !! id); [done|]. by destruct (negb _).
Qed.

Lemma AddHook_Done_inv h id x h' e :
  AddHook h id x = Done (h', e) ->
  (e <> None /\ h' = h) \/
  (e = None /\ exists hk d, x = Some d /\ find h id = Some hk /\
     AssignableTo (dtype d) (signiture hk) = true /\
     find h' id = Some {| signiture := signiture hk;
                          handler := (handler hk ++ [x])%list |} /\
     forall i, i <> id -> find h' i = find h i).
Proof.
  unfold AddHook, find. destruct (hlist h) as [m|]; [|intros [= <- <-]; by left].
  destruct (m !! id) as [hk|] eqn:Hid; [|intros [= <- <-]; by left].
  destruct x as [d|]; [simpl|done].
  destruct (AssignableTo (dtype d) (signiture hk)) eqn:Ha; simpl;
    intros [= <- <-]; [right | by left].
  split; [done|]. exists hk, d. repeat split; try done.
  - simpl. by rewrite lookup_insert_eq.
  - intros i Hne. simpl. by rewrite lookup_insert_ne.
Qed.

Lemma call_keeps h h' id hk :
  call h h' -> find h id = Some hk ->
  exists hk', find h' id = Some hk' /\ signiture hk' = signiture hk /\
    handler hk `prefix_of` handler hk'.
Proof.
  intros [h0 i sig h1 e Hr|h0 i x h1 e Ha] Hid.
  - destruct (registerHook_inv _ _ _ _ _ Hr)
      as [(_ & _ & _ & Hsame)|(Hnone & s & _ & [(_ & _ & Hsame)|(_ & _ & _ & Hother)])].
    + exists hk. by rewrite Hsame.
    + exists hk. by rewrite Hsame.
    + exists hk. rewrite Hother; [done|]. intros ->. congruence.
  - destruct (AddHook_Done_inv _ _ _ _ _ Ha)
      as [(_ & ->)|(_ & hk0 & d & _ & Hid0 & _ & Hnew & Hother)].
    + by exists hk.
    + destruct (decide (id = i)) as [->|Hne].
      * rewrite Hid in Hid0. injection Hid0 as <-.
        eexists. split; [exact Hnew|]. split; [done|]. by apply prefix_app_r.
      * exists hk. by rewrite Hother.
Qed.

(** X2. Whatever calls of [registerHook] and [AddHook] follow, a hook
    that is registered stays registered with the signature it has, and
    the handlers it has stay where they are: later handlers come behind
    them, none is removed or moved. *)
Theorem calls_keep_hooks h h' id hk :
  rtc call h h' -> find h id = Some hk ->
  exists hk', find h' id = Some hk' /\ signiture hk' = signiture hk /\
    handler hk `prefix_of` handler hk'.
Proof.
  intros Hcalls. revert hk.
  induction Hcalls as [h|h h1 h2 Hcall _ IH]; intros hk Hid.
  - by exists hk.
  - destruct (call_keeps _ _ _ _ Hcall Hid) as (hk1 & Hid1 & Hs1 & Hp1).
    destruct (IH _ Hid1) as (hk2 & Hid2 & Hs2 & Hp2).
    exists hk2. split; [done|]. split; [congruence|]. by etrans.
Qed.

Lemma call_well_typed h h' : call h h' -> well_typed h -> well_typed h'.
Proof.
  intros [h0 i sig h1 e Hr|h0 i x h1 e Ha] Hwt id hk Hid.
  - destruct (registerHook_inv _ _ _ _ _ Hr)
      as [(_ & _ & _ & Hsame)|(Hnone & s & _ & [(_ & _ & Hsame)|(Hf & _ & Hnew & Hother)])].
    + apply (Hwt id). by rewrite <- Hsame.
    + apply (Hwt id). by rewrite <- Hsame.
    + destruct (decide (id = i)) as [->|Hne].
      * rewrite Hnew in Hid. injection Hid as <-. by split.
      * apply (Hwt id). by rewrite <- Hother.
  - destruct (AddHook_Done_inv _ _ _ _ _ Ha)
      as [(_ & ->)|(_ & hk0 & d & -> & Hid0 & Hass & Hnew & Hother)].
    + by apply (Hwt id).
    + destruct (decide (id = i)) as [->|Hne].
      * rewrite Hnew in Hid. injection Hid as <-. simpl.
        destruct (Hwt _ _ Hid0) as [Hf Hall]. split; [done|].
        apply Forall_app. split; [done|]. repeat constructor. by exists d.
      * apply (Hwt id). by rewrite <- Hother.
Qed.

(** X3. In a registry made from the zero value by calls of
    [registerHook] and [AddHook], every registered signature is a function
    type and every handler [getHooks] yields is a non-nil value whose type
    is assignable to the signature of its hook. *)
Theorem calls_well_typed h :
  rtc call {| hlist := None |} h -> well_typed h.
Proof.
  assert (Hstep : forall a b : hooks V, rtc call a b -> well_typed a -> well_typed b).
  { intros a b Hcalls. induction Hcalls as [|a b c Hcall _ IH]; [done|].
    intros Hwt. apply IH. by apply (call_well_typed a). }
  intros Hcalls. apply (Hstep _ _ Hcalls). intros id hk Hid. done.
Qed.

End MoreHookFacts.

(** ** More on validation *)

Section MoreValidationFacts.
Import Fmt Validation.

Lemma Required_added v name obj : added v name (Required v name obj).
Proof. destruct obj; [right; eauto..|by left]. Qed.

Lemma Min_added v name obj min : added v name (Min v name obj min).
Proof. destruct obj; try (right; eauto; fail); by left. Qed.

Lemma Max_added v name obj max : added v name (Max v name obj max).
Proof. destruct obj; try (right; eauto; fail); by left. Qed.

Lemma MinMax_added v name obj min max : added v name (MinMax v name obj min max).
Proof. destruct obj; try (right; eauto; fail); by left. Qed.

Lemma messages_insert v (name other : string) l b :
  messages {| HasErrors := b; errors := <[name := l]> (errors v) |} other
  = if decide (name = other) then l else messages v other.
Proof.
  unfold messages. simpl. destruct (decide (name = other)) as [->|Hne].
  - by rewrite lookup_insert_eq.
  - by rewrite lookup_insert_ne.
Qed.

Lemma added_frame v name r :
  added v name r ->
  match r.2 with
  | None => r.1 = v
  | Some vr =>
      Validation.name vr = name /\
      if valid vr then r.1 = v /\ index vr = -1
      else HasErrors r.1 = true /\
           (exists message, messages r.1 name = (messages v name ++ [message])%list) /\
           (forall other, other <> name -> messages r.1 other = messages v other) /\
           index vr = Z.of_nat (length (messages v name))
  end.
Proof.
  intros [-> | (b & message & ->)]; [done|].
  unfold some, addValidationResult. destruct b; simpl; [done|].
  split; [done|]. split; [done|]. rewrite !messages_insert.
  rewrite decide_True by done. split; [eauto|]. split.
  - intros other Hne. rewrite messages_insert. by rewrite decide_False.
  - rewrite length_app. simpl. lia.
Qed.

(** X4. Whatever the object, a call of [Required], [Min], [Max] or
    [MinMax] that returns a valid result, or nil, leaves the validation as
    it was; one that returns an invalid result sets [HasErrors], appends
    one message to the messages of the name, at the index the result
    holds, and leaves the messages of every other name as they were. *)
Theorem checks_frame v name obj (min max : Z) r :
  r = Required v name obj \/ r = Min v name obj min \/
  r = Max v name obj max \/ r = MinMax v name obj min max ->
  match r.2 with
  | None => r.1 = v
  | Some vr =>
      Validation.name vr = name /\
      if valid vr then r.1 = v /\ index vr = -1
      else HasErrors r.1 = true /\
           (exists message, messages r.1 name = (messages v name ++ [message])%list) /\
           (forall other, other <> name -> messages r.1 other = messages v other) /\
           index vr = Z.of_nat (length (messages v name))
  end.
Proof.
  intros [-> | [-> | [-> | ->]]]; apply added_frame;
    auto using Required_added, Min_added, Max_added, MinMax_added.
Qed.

Lemma checks_frame_witness :
  HasErrors (Max {| HasErrors := false; errors := ∅ |} "nick" (OfString "abcdef") 3).1
  = true.
Proof.
  pose proof (checks_frame {| HasErrors := false; errors := ∅ |} "nick"
                (OfString "abcdef") 0 3 _ (or_intror (or_intror (or_introl eq_refl))))
    as Hf.
  assert (Hr : (Max {| HasErrors := false; errors := ∅ |} "nick"
                    (OfString "abcdef") 3).2
               = Some {| valid := false; name := "nick"; index := 0 |})
    by (vm_compute; reflexivity).
  rewrite Hr in Hf. exact (proj1 (proj2 Hf)).
Defined.

Lemma added_consistent v name r : added v name r -> consistent v -> consistent r.1.
Proof.
  intros [-> | (b & message & ->)] Hc; [done|].
  unfold some, addValidationResult. destruct b; simpl; [done|].
  unfold consistent. simpl. split; [|done]. intros _. exists name.
  rewrite messages_insert, decide_True by done. by destruct (messages v name).
Qed.

Lemma Message_inv v vr msg v' vr' :
  Message v vr msg = Done (v', vr') ->
  vr' = vr /\
  exists r, vr = Some r /\
    (index r = -1 /\ v' = v \/
     0 <= index r < Z.of_nat (length (messages v (name r))) /\
     HasErrors v' = HasErrors v /\
     messages v' (name r) = <[Z.to_nat (index r) := msg]> (messages v (name r)) /\
     forall other, other <> name r -> messages v' other = messages v other).
Proof.
  unfold Message. destruct vr as [r|]; [|done].
  destruct (Z.eqb_spec (index r) (-1)) as [Hi|Hi]; simpl.
  - intros [= <- <-]. split; [done|]. exists r. split; [done|]. by left.
  - destruct (Z.leb_spec 0 (index r)); simpl; [|done].
    destruct (Z.ltb_spec (index r) (Z.of_nat (length (messages v (name r)))));
      simpl; [|done].
    intros [= <- <-]. split; [done|]. exists r. split; [done|]. right.
    split; [lia|]. split; [done|]. rewrite messages_insert, decide_True by done.
    split; [done|]. intros other Hne. by rewrite messages_insert, decide_False.
Qed.

(** X5. [HasErrors] being set exactly when some name has a message is
    an invariant: it holds of a validation without messages, and
    [Required], [Min], [Max], [MinMax] and a [Message] that returns keep
    it. *)
Theorem validation_consistent v name obj (min max : Z) :
  consistent {| HasErrors := false; errors := ∅ |} /\
  (consistent v ->
   consistent (Required v name obj).1 /\ consistent (Min v name obj min).1 /\
   consistent (Max v name obj max).1 /\ consistent (MinMax v name obj min max).1 /\
   forall vr msg v' vr', Message v vr msg = Done (v', vr') -> consistent v').
Proof.
  split.
  - split; [done|]. intros [n Hn]. by destruct Hn.
  - intros Hc. repeat split.
    1-8: eapply added_consistent;
      eauto using Required_added, Min_added, Max_added, MinMax_added.
    all: destruct (Message_inv _ _ _ _ _ H) as (_ & r & _ & [[_ ->]|(Hi & Hh & Hm & Ho)]);
      try apply Hc.
    + intros Hv'. rewrite Hh in Hv'. destruct (proj1 Hc Hv') as [n Hn].
      exists n. destruct (decide (n = Validation.name r)) as [->|Hne].
      * rewrite Hm. intros Hnil. apply Hn.
        apply (f_equal length) in Hnil. rewrite length_insert in Hnil.
        by destruct (messages v (Validation.name r)).
      * by rewrite Ho.
    + intros [n Hn]. rewrite Hh. apply Hc.
      destruct (decide (n = Validation.name r)) as [->|Hne].
      * exists (Validation.name r). intros Hnil. rewrite Hnil in Hi. simpl in Hi. lia.
      * exists n. by rewrite <- Ho.
Qed.

Lemma validation_consistent_witness :
  consistent (Min {| HasErrors := false; errors := ∅ |} "age" (OfInt 3) 18).1.
Proof.
  destruct (validation_consistent {| HasErrors := false; errors := ∅ |}
              "age" (OfInt 3) 18 0) as [H0 Hkeep].
  exact (proj1 (proj2 (Hkeep H0))).
Defined.

Lemma Message_last v r msg l m :
  messages v (name r) = (l ++ [m])%list -> index r = Z.of_nat (length l) ->
  exists v', Message v (Some r) msg = Done (v', Some r) /\
    HasErrors v' = HasErrors v /\
    messages v' (name r) = (l ++ [msg])%list /\
    forall other, other <> name r -> messages v' other = messages v other.
Proof.
  intros Hm Hi. unfold Message. rewrite Hm, Hi, length_app. simpl.
  destruct (Z.eqb_spec (Z.of_nat (length l)) (-1)); [lia|].
  destruct (Z.leb_spec 0 (Z.of_nat (length l))); [|lia].
  destruct (Z.ltb_spec (Z.of_nat (length l)) (Z.of_nat (length l + 1))); [|lia].
  simpl. eexists. split; [reflexivity|]. split; [done|].
  rewrite messages_insert, decide_True by done. split.
  - rewrite Nat2Z.id. replace (length l) with (length l + 0)%nat at 1 by lia.
    by rewrite insert_app_r.
  - intros other Hne. by rewrite messages_insert, decide_False.
Qed.

(** X6. [Message] on the invalid result a check has just returned
    replaces the default message of the check: the name then has the
    messages it had before the check followed by the new one, and the
    other names are untouched. On a valid result it changes nothing. On
    nil, which the checks return for an object they do not support, it
    panics. *)
Theorem Message_replaces v name obj (min max : Z) r vr msg :
  r = Required v name obj \/ r = Min v name obj min \/
  r = Max v name obj max \/ r = MinMax v name obj min max ->
  (r.2 = Some vr -> valid vr = false ->
     exists v', Message r.1 r.2 msg = Done (v', Some vr) /\
       HasErrors v' = true /\
       messages v' name = (messages v name ++ [msg])%list /\
       forall other, other <> name -> messages v' other = messages v other) /\
  (r.2 = Some vr -> valid vr = true -> Message r.1 r.2 msg = Done (v, Some vr)) /\
  (r.2 = None ->
     Message r.1 r.2 msg = Panic "invalid memory address or nil pointer dereference").
Proof.
  intros Hr.
  assert (Hadd : added v name r).
  { destruct Hr as [-> | [-> | [-> | ->]]];
      auto using Required_added, Min_added, Max_added, MinMax_added. }
  clear Hr. pose proof (added_frame _ _ _ Hadd) as Hf.
  destruct r as [v1 [r1|]]; cbn [fst snd] in *.
  - destruct Hf as [Hname Hf]. split; [|split; [|done]].
    + intros [= <-] Hv. rewrite Hv in Hf.
      destruct Hf as (Hh & (m0 & Hm) & Ho & Hi). subst name.
      destruct (Message_last v1 r1 msg (messages v (Validation.name r1)) m0)
        as (v' & -> & Hh' & Hm' & Ho'); [done..|].
      exists v'. split; [done|]. split; [congruence|]. split; [done|].
      intros other Hne. rewrite <- Ho by done. by apply Ho'.
    + intros [= <-] Hv. rewrite Hv in Hf. destruct Hf as [-> Hi].
      unfold Message. by rewrite Hi.
  - split; [done|]. split; done.
Qed.

Lemma Message_replaces_witness :
  exists v',
    Message (Min {| HasErrors := false; errors := ∅ |} "age" (OfInt 3) 18).1
            (Min {| HasErrors := false; errors := ∅ |} "age" (OfInt 3) 18).2
            "too young"
    = Done (v', Some {| valid := false; name := "age"; index := 0 |}) /\
    messages v' "age" = ["too young"].
Proof.
  assert (Hr : (Min {| HasErrors := false; errors := ∅ |} "age" (OfInt 3) 18).2
               = Some {| valid := false; name := "age"; index := 0 |})
    by (vm_compute; reflexivity).
  destruct (proj1 (Message_replaces {| HasErrors := false; errors := ∅ |} "age"
                     (OfInt 3) 18 0 _ {| valid := false; name := "age"; index := 0 |}
                     "too young" (or_intror (or_introl eq_refl)))
              Hr eq_refl) as (v' & Hm & _ & Hmsg & _).
  exists v'. split; [exact Hm | exact Hmsg].
Defined.

(** X7. The bounds are inclusive and [MinMax] is [Min] and [Max]
    together: for an [int] the result of [Min] is valid exactly when the
    value is at least the bound and the one of [Max] when it is at most
    the bound, for a [string] the same of its length in bytes, for a slice
    of its length; and whatever the object, [MinMax] returns nil when
    [Min] and [Max] do, and otherwise a result that is valid exactly when
    both of theirs are. *)
Theorem bounds_inclusive v name (min max : Z) :
  (forall x, valid <$> (Min v name (OfInt x) min).2 = Some (min <=? x) /\
             valid <$> (Max v name (OfInt x) max).2 = Some (x <=? max)) /\
  (forall s, valid <$> (Min v name (OfString s) min).2
               = Some (min <=? Z.of_nat (String.length s)) /\
             valid <$> (Max v name (OfString s) max).2
               = Some (Z.of_nat (String.length s) <=? max)) /\
  (forall n, valid <$> (Min v name (OfSlice n) min).2 = Some (min <=? n) /\
             valid <$> (Max v name (OfSlice n) max).2 = Some (n <=? max)) /\
  (forall obj,
     valid <$> (MinMax v name obj min max).2
     = match valid <$> (Min v name obj min).2, valid <$> (Max v name obj max).2 with
       | Some a, Some b => Some (a && b)
       | _, _ => None
       end).
Proof.
  assert (Hv : forall b m, valid <$> (some (addValidationResult v name b m)).2 = Some b).
  { intros b m. unfold some, addValidationResult. by destruct b. }
  repeat split; intros; unfold Min, Max, MinMax; try destruct obj;
    rewrite ?Hv, ?Z.geb_leb; done.
Qed.

End MoreValidationFacts.

(** ** More on names *)

Section NameFacts.
Import GoStrings.

Lemma lower_byte_idem (c : ascii) : lower_byte (lower_byte c) = lower_byte c.
Proof. destruct c as [[] [] [] [] [] [] [] []]; reflexivity. Qed.

Lemma ToLower_idem (s : string) : ToLower (ToLower s) = ToLower s.
Proof.
  induction s as [|c s IH]; [done|]. simpl. by rewrite lower_byte_idem, IH.
Qed.

Lemma ToLower_app (a b : string) : ToLower (a ++ b) = ToLower a ++ ToLower b.
Proof.
  induction a as [|c a IH]; [done|]. rewrite append_cons. simpl.
  by rewrite IH, append_cons.
Qed.

Lemma Replace_app (a b : string) (old new : ascii) :
  Replace (a ++ b) old new = Replace a old new ++ Replace b old new.
Proof.
  induction a as [|c a IH]; [done|]. rewrite append_cons. simpl.
  by rewrite IH, append_cons.
Qed.

Lemma ToLower_Replace (s : string) :
  ToLower (Replace (ToLower s) "\" "/") = Replace (ToLower s) "\" "/".
Proof.
  induction s as [|c s IH]; [done|]. simpl. rewrite IH. f_equal.
  destruct c as [[] [] [] [] [] [] [] []]; reflexivity.
Qed.

Lemma Replace_idem (s : string) :
  Replace (Replace s "\" "/") "\" "/" = Replace s "\" "/".
Proof.
  induction s as [|c s IH]; [done|]. simpl. rewrite IH. f_equal.
  destruct (Ascii.eqb_spec c "\") as [->|Hne]; [done|].
  by destruct (Ascii.eqb_spec c "\").
Qed.

Lemma prefix_cancel (a b c : string) :
  String.prefix (a ++ b) (a ++ c) = String.prefix b c.
Proof.
  induction a as [|x a IH]; [done|]. rewrite !append_cons. simpl.
  by destruct (ascii_dec x x).
Qed.


End NameFacts.

(** ** More on lookup and render *)

Section MoreRenderFacts.
Import GoStrings Fmt Reflect Hooks FS Template.
Context `{Engine}.
Implicit Types (tm : TemplateManager) (nf : Notify) (st : walk_state).

Lemma normalize_app (a b : string) : normalize (a ++ b) = normalize a ++ normalize b.
Proof. unfold normalize. by rewrite ToLower_app, Replace_app. Qed.

Lemma normalize_idem (s : string) : normalize (normalize s) = normalize s.
Proof. unfold normalize. by rewrite ToLower_Replace, Replace_idem. Qed.

Lemma ToLower_normalize (s : string) : ToLower (normalize s) = normalize s.
Proof. apply ToLower_Replace. Qed.

(** X8. Lookup and render do not tell the letter case of a name: two
    names with the same lower-case form get the same answer of
    [getTemplate] and of [RenderTemplate], the lower-case form of a name
    gets the answer of the name, and a name whose lower-case form is the
    normal form of a path gets the fragment registered under that normal
    form. *)
Theorem lookup_ignores_case tm (a b : string) :
  (ToLower a = ToLower b ->
     getTemplate tm a = getTemplate tm b /\
     forall req args, RenderTemplate tm req a args = RenderTemplate tm req b args) /\
  getTemplate tm (ToLower a) = getTemplate tm a /\
  (forall g path, tmplList tm = Some g -> ToLower a = normalize path ->
     snd <$> getTemplate tm a = set g !! normalize path).
Proof.
  split; [|split].
  - intros Hab. unfold RenderTemplate, getTemplate. by rewrite Hab.
  - unfold getTemplate. by rewrite ToLower_idem.
  - intros g path Hg Ha. unfold getTemplate. rewrite Hg, Ha.
    by destruct (set g !! normalize path).
Qed.

Lemma fire_render_panics (hs1 hs2 : list (iface value)) x req p t args tr m :
  Forall (fun hook => exists f, asBeforeRender hook = Done f) hs1 ->
  asBeforeRender x = Panic m ->
  fire_render (hs1 ++ x :: hs2) req p t args tr = Panic m.
Proof.
  intros Hty Hx. revert args tr.
  induction Hty as [|hook hs1 [f Hf] _ IH]; intros args tr; simpl.
  - by rewrite Hx.
  - rewrite Hf. simpl. apply IH.
Qed.

(** X9. [AddHook] attaches to a hook whose signature is a type literal
    every non-nil handler of the same kind and underlying type, a function
    of a defined type among them. [RenderTemplate], when it finds the
    fragment, panics at the first handler of the BEFORE_RENDER hook whose
    dynamic type is not the function type of the hook itself, after the
    handlers before it and before the fragment is executed; it returns
    no error then. *)
Theorem assignable_is_not_identical tm :
  (forall id hk (d : dyn value),
     find (tm_hooks tm) id = Some hk ->
     tname (signiture hk) = None ->
     tkind (dtype d) = tkind (signiture hk) ->
     tunder (dtype d) = tunder (signiture hk) ->
     exists h', AddHook (tm_hooks tm) id (Some d) = Done (h', None) /\
       getHooks h' id = (getHooks (tm_hooks tm) id ++ [Some d])%list) /\
  (forall req name args g t hs1 (d : dyn value) hs2,
     getTemplate tm name = Some (g, t) ->
     getHooks (tm_hooks tm) TmBeforeRender = (hs1 ++ Some d :: hs2)%list ->
     Forall (fun hook => exists f, asBeforeRender hook = Done f) hs1 ->
     dtype d <> sigBeforeRender ->
     RenderTemplate tm req name args = Panic "interface conversion").
Proof.
  split.
  - intros id hk d Hid Hname Hkind Hunder.
    assert (Ha : AssignableTo (dtype d) (signiture hk) = true).
    { unfold AssignableTo, directlyAssignable.
      destruct (decide (signiture hk = dtype d)); [done|].
      rewrite Hname, Hkind, Hunder. simpl.
      by rewrite !bool_decide_eq_true_2. }
    destruct (AddHook_ok _ _ _ _ Hid Ha) as [h' Hadd]. exists h'. split; [done|].
    destruct (AddHook_inv _ _ _ _ Hadd) as (hk' & Hid' & Hnew & _).
    rewrite Hid in Hid'. injection Hid' as <-.
    by rewrite (getHooks_find _ _ _ Hnew), (getHooks_find _ _ _ Hid).
  - intros req name args g t hs1 d hs2 Hget Hhs Hty Hd.
    unfold RenderTemplate. rewrite Hget, Hhs.
    rewrite (fire_render_panics hs1 hs2 (Some d) _ _ _ _ _ "interface conversion");
      [done | done |].
    unfold asBeforeRender. destruct d as [ty v]. destruct v; simpl in *; try done.
    by rewrite decide_False.
Qed.

(** X10. A manager made by [newTemplateManager] has the normal form of
    the directory it was given, which normalizing again leaves as it is,
    the two hooks registered with no handler, and no group installed: until
    a compilation succeeds [getTemplate] yields nil and [RenderTemplate]
    returns the error "can't find template" for every name. *)
Theorem fresh_manager (addr : ptr) (dir : string) :
  exists tm,
    newTemplateManager addr dir = Done tm /\
    directory tm = normalize dir /\
    normalize (directory tm) = directory tm /\
    find (tm_hooks tm) TmBeforeParse
      = Some {| signiture := sigBeforeParse; handler := [] |} /\
    find (tm_hooks tm) TmBeforeRender
      = Some {| signiture := sigBeforeRender; handler := [] |} /\
    (forall name, getTemplate tm name = None) /\
    (forall req name args,
       RenderTemplate tm req name args =
       Done ([], "", Some (Errorf ("can't find template '" ++ ToLower name ++ "'")))).
Proof.
  eexists. split; [reflexivity|]. simpl.
  split; [done|]. split; [apply normalize_idem|].
  split; [reflexivity|]. split; [reflexivity|]. split; [done|].
  intros req name args. unfold RenderTemplate. simpl. by rewrite not_found_message.
Qed.

End MoreRenderFacts.

(** ** More on compilation *)

Section MoreCompileFacts.
Import GoStrings Fmt Reflect Hooks FS Template.
Context `{Engine}.
Implicit Types (tm : TemplateManager) (nf : Notify) (st : walk_state).

(** X11. [loadTemplates], however it returns, leaves the address, the
    hooks, the directory and the function table of the manager as they
    were and loses no regular file of the tree. When the watcher cannot be
    made it returns that error with the tree and the installed group
    untouched and no watcher; when the directory of the manager does not
    exist it panics, the function of the walk being handed a nil
    [FileInfo]. *)
Theorem loadTemplates_frame tm nf fs0 :
  (forall tm' fs' ret,
     loadTemplates tm nf fs0 = Done (tm', fs', ret) ->
     self tm' = self tm /\ tm_hooks tm' = tm_hooks tm /\
     directory tm' = directory tm /\ tmplFuncs tm' = tmplFuncs tm /\
     keeps_files fs0 fs') /\
  (forall e, NewWatcher nf = Some e ->
     exists tm', loadTemplates tm nf fs0 = Done (tm', fs0, Some e) /\
       watcher tm' = None /\ tmplList tm' = tmplList tm) /\
  (NewWatcher nf = None -> Lstat fs0 (directory tm) = None ->
     loadTemplates tm nf fs0
     = Panic "invalid memory address or nil pointer dereference").
Proof.
  split; [|split].
  - intros tm' fs' ret. unfold loadTemplates. destruct (NewWatcher nf) as [err|].
    + intros [= <- <- <-]. repeat split. apply keeps_files_refl.
    + destruct (Walk _ _ _ _) as [[st r]|] eqn:Hwalk; [simpl|done].
      intros [= <- <- <-]. repeat split.
      destruct (Walk_Done _ _ _ _ _ _ Hwalk) as (n & _ & Hrun).
      apply (run_keeps_files _ _ _ _ _ _ Hrun).
  - intros e He. unfold loadTemplates. rewrite He. eexists. by split.
  - intros Hnw Hl. unfold loadTemplates, Walk. by rewrite Hnw, Hl.
Qed.

End MoreCompileFacts.

(** ** What a compilation installs *)

Section InstallFacts.
Import GoStrings Fmt Reflect Hooks FS Template.
Context `{Engine}.
Implicit Types (tm : TemplateManager) (nf : Notify) (st : walk_state).

(** What one call of the function of the walk does to the watched
    directories and to the two groups. *)
Lemma walkFn_step tm nf st path info st' e :
  walkFn tm nf st path (Some info) = Done (st', e) ->
  watched st' = (if watchable nf (path, info)
                 then (watched st ++ [normalize path])%list else watched st) /\
  (templates st' = templates st \/
   IsDir info = false /\
   HasPrefix (normalize path) (directory tm ++ "/static/") = false /\
   exists tmplName t,
     slice_from (normalize path) (String.length (directory tm) + 1) = Done tmplName /\
     templates st' =
       Some {| funcs := match templates st with
                        | Some g => funcs g
                        | None => tmplFuncs tm
                        end;
               set := <[tmplName := t]> (match templates st with
                                         | Some g => set g
                                         | None => ∅
                                         end) |}) /\
  (staticTemplates st' = staticTemplates st \/ staticTemplates st' = None \/
   exists g, staticTemplates st' = Some g /\
     funcs g = match staticTemplates st with
               | Some g0 => funcs g0
               | None => ∅
               end).
Proof.
  unfold walkFn, watchable, skipped. cbn [fst snd].
  destruct (IsDir info) eqn:Hdir; cbn [andb negb].
  { destruct (HasPrefix (Name info) "." || String.eqb (Name info) "_static");
      cbn [andb negb].
    - intros [= <- <-]. auto.
    - destruct (Watch nf (normalize path)) eqn:Hw; intros [= <- <-]; cbn [watched templates staticTemplates].
      + rewrite bool_decide_eq_false_2 by done. auto.
      + rewrite bool_decide_eq_true_2 by done. auto. }
  destruct (HasSuffix (Name info) ".html"); [|intros [= <- <-]; auto].
  destruct (ReadFile _ _) as [fdata|]; [|intros [= <- <-]; auto].
  destruct (slice_from _ _) as [tmplName|] eqn:Hs; [rewrite bind_Done|done].
  destruct (HasPrefix (normalize path) _) eqn:Hst.
  - destruct (parse_into (staticTemplates st) _ _ _) as [g|] eqn:Hp.
    + destruct (emit_static tm st g tmplName info) as [[fs' e']|]; [rewrite bind_Done|done].
      intros [= <- <-]. cbn [watched templates staticTemplates].
      split; [done|]. split; [by left|]. right. right.
      exists g. split; [done|]. unfold parse_into in Hp.
      destruct (Parse _ fdata); [|done]. by injection Hp as <-.
    + intros [= <- <-]. cbn [watched templates staticTemplates]. auto.
  - destruct (fire_parse _ _ _ _) as [fdata'|]; [rewrite bind_Done|done].
    unfold parse_into. destruct (Parse _ fdata') as [t|]; intros [= <- <-];
      cbn [watched templates staticTemplates]; [|auto].
    split; [done|]. split; [|by left]. right. split; [done|]. split; [done|].
    by exists tmplName, t.
Qed.

(** A property of the state that every call keeps is kept by the walk. *)
Lemma run_keeps tm nf (Q : string * FileInfo -> Prop) (P : walk_state -> Prop) l :
  (forall st path info st' e,
     Q (path, info) -> walkFn tm nf st path (Some info) = Done (st', e) ->
     P st -> P st') ->
  Forall Q l ->
  forall st st' e, run tm nf l st = Done (st', e) -> P st -> P st'.
Proof.
  intros Hstep HQ. induction HQ as [|[path info] l Hq _ IH]; intros st st' e.
  - by intros [= <- <-].
  - rewrite run_cons.
    destruct (walkFn tm nf st path (Some info)) as [[st1 e1]|] eqn:Hw; [|done].
    intros Hrun HP. pose proof (Hstep _ _ _ _ _ Hq Hw HP) as HP1.
    rewrite bind_Done in Hrun. destruct e1 as [e1|].
    + destruct (decide (e1 = SkipDir)); [by apply (IH st1 st' e)|].
      by injection Hrun as <- <-.
    + by apply (IH st1 st' e).
Qed.

Lemma Forall_True_entries (l : list (string * FileInfo)) : Forall (fun _ => True) l.
Proof. by apply Forall_forall. Qed.

(** The function tables of the two groups. *)
Lemma run_funcs tm nf l st st' e :
  run tm nf l st = Done (st', e) ->
  (forall g, templates st = Some g -> funcs g = tmplFuncs tm) /\
  (forall g, staticTemplates st = Some g -> funcs g = ∅) ->
  (forall g, templates st' = Some g -> funcs g = tmplFuncs tm) /\
  (forall g, staticTemplates st' = Some g -> funcs g = ∅).
Proof.
  intros Hrun.
  refine (run_keeps tm nf (fun _ => True)
            (fun st => (forall g, templates st = Some g -> funcs g = tmplFuncs tm) /\
                       (forall g, staticTemplates st = Some g -> funcs g = ∅))
            l _ (Forall_True_entries l) st st' e Hrun).
  clear. intros st path info st' e _ Hw [Ht Hs].
  destruct (walkFn_step _ _ _ _ _ _ _ Hw) as (_ & Ht' & Hs'). split.
  - intros g Hg. destruct Ht' as [Heq|(_ & _ & nm & t & _ & Heq)].
    + apply Ht. congruence.
    + rewrite Heq in Hg. injection Hg as <-. simpl.
      destruct (templates st) as [g0|]; [by apply Ht | done].
  - intros g Hg. destruct Hs' as [Heq|[Heq|(g1 & Heq & Hf)]].
    + apply Hs. congruence.
    + congruence.
    + rewrite Heq in Hg. injection Hg as <-. rewrite Hf.
      destruct (staticTemplates st) as [g0|]; [by apply Hs | done].
Qed.

(** X12. The group a compilation installs carries the function table the
    manager has when it is compiled. [AddTmplFunc] changes neither what
    [getTemplate] yields nor what [RenderTemplate] does with the group
    already installed; the function is in the table of the group the next
    compilation installs. *)
Theorem AddTmplFunc_next_compile tm (fn : string) :
  (forall nf fs0 tm' fs' g,
     loadTemplates tm nf fs0 = Done (tm', fs', None) ->
     tmplList tm' = Some g -> funcs g = tmplFuncs tm) /\
  (forall name, getTemplate (AddTmplFunc tm fn) name = getTemplate tm name) /\
  (forall req name args,
     RenderTemplate (AddTmplFunc tm fn) req name args
     = RenderTemplate tm req name args) /\
  (forall nf fs0 tm' fs' g,
     loadTemplates (AddTmplFunc tm fn) nf fs0 = Done (tm', fs', None) ->
     tmplList tm' = Some g -> funcs g = {[ fn ]} ∪ tmplFuncs tm).
Proof.
  assert (Hload : forall tm0 nf fs0 tm' fs' g,
            loadTemplates tm0 nf fs0 = Done (tm', fs', None) ->
            tmplList tm' = Some g -> funcs g = tmplFuncs tm0).
  { intros tm0 nf fs0 tm' fs' g Hl Hg.
    destruct (loadTemplates_Done _ _ _ _ _ _ Hl)
      as (_ & _ & [(_ & _ & [? [=]])|(_ & st & Hwalk & _ & Hlist)]).
    destruct (Walk_Done _ _ _ _ _ _ Hwalk) as (n & _ & Hrun).
    apply (run_funcs _ _ _ _ _ _ Hrun); [by split|]. congruence. }
  split; [apply Hload|]. split; [done|]. split; [done|].
  intros nf fs0 tm' fs' g Hl Hg. by rewrite (Hload _ _ _ _ _ _ Hl Hg).
Qed.

(** The watched directories after a walk that is not cut short. *)
Lemma run_watched tm nf l st st' :
  run tm nf l st = Done (st', None) ->
  watched st' =
  (watched st ++ (normalize ∘ fst <$> filter (fun c => watchable nf c = true) l))%list.
Proof.
  revert st. induction l as [|[path info] l IH]; intros st.
  - intros [= <-]. by rewrite app_nil_r.
  - rewrite run_cons.
    destruct (walkFn tm nf st path (Some info)) as [[st1 e1]|] eqn:Hw; [|done].
    rewrite bind_Done. destruct (walkFn_step _ _ _ _ _ _ _ Hw) as (Hwd & _).
    intros Hrun.
    assert (Hrest : run tm nf l st1 = Done (st', None)).
    { destruct e1 as [e1|]; [|done]. by destruct (decide (e1 = SkipDir)). }
    rewrite (IH _ Hrest), Hwd, filter_cons.
    destruct (watchable nf (path, info)).
    + rewrite decide_True by done. simpl. by rewrite <- app_assoc.
    + by rewrite decide_False.
Qed.

(** X13. When [loadTemplates] returns nil, the watcher of the manager
    observes the normal forms of the paths of the directories the walk
    has visited, in the order of the walk, but for the hidden directories
    and [_static], which it skips, and the directories the watcher did
    not take. *)
Theorem loadTemplates_watches tm nf fs0 tm' fs' n :
  loadTemplates tm nf fs0 = Done (tm', fs', None) ->
  Lstat fs0 (directory tm) = Some n ->
  watcher tm' =
  Some (normalize ∘ fst <$>
        filter (fun c => watchable nf c = true)
               (visits (directory tm) (base (directory tm)) n)).
Proof.
  intros Hl Hn. unfold loadTemplates in Hl.
  destruct (NewWatcher nf); [done|].
  rewrite (Walk_run _ _ _ _ _ Hn) in Hl.
  destruct (run tm nf _ _) as [[st r]|] eqn:Hrun; [|done].
  rewrite bind_Done in Hl. injection Hl as <- <- ->. simpl.
  by rewrite (run_watched _ _ _ _ _ Hrun).
Qed.


Lemma normalize_below (d rel : string) :
  normalize d = d -> normalize (d ++ "/" ++ rel) = d ++ "/" ++ normalize rel.
Proof.
  intros Hd. rewrite (normalize_app d), Hd. reflexivity.
Qed.

Lemma static_below (d rel : string) :
  HasPrefix (d ++ "/" ++ rel) (d ++ "/static/") = HasPrefix rel "static/".
Proof.
  unfold HasPrefix. rewrite prefix_cancel. simpl.
  by destruct (ascii_dec "/" "/").
Qed.

Lemma name_below (d rel : string) :
  slice_from (d ++ "/" ++ rel) (String.length d + 1) = Done rel.
Proof. apply (slice_from_append d rel "/"). Qed.


(** A name that is in the group stays in it. *)
Lemma run_keeps_name tm nf l st st' e (nm : string) :
  run tm nf l st = Done (st', e) ->
  (exists g, templates st = Some g /\ is_Some (set g !! nm)) ->
  (exists g, templates st' = Some g /\ is_Some (set g !! nm)).
Proof.
  intros Hrun.
  refine (run_keeps tm nf (fun _ => True)
            (fun st => exists g, templates st = Some g /\ is_Some (set g !! nm))
            l _ (Forall_True_entries l) st st' e Hrun).
  clear. intros st path info st' e _ Hw (g & Hg & Hnm).
  destruct (walkFn_step _ _ _ _ _ _ _ Hw) as (_ & [Heq|(_ & _ & tn & t & _ & Heq)] & _).
  - exists g. split; [congruence | done].
  - eexists. split; [exact Heq|]. simpl. rewrite Hg.
    destruct (decide (tn = nm)) as [->|Hne].
    + rewrite lookup_insert_eq. eauto.
    + by rewrite lookup_insert_ne.
Qed.


(** X15. When [loadTemplates], for a manager whose directory is in
    normal form, returns nil, every file [<directory>/<rel>] the walk has
    visited whose name ends in [.html] and whose normal form does not
    begin with [static/] is in the group installed, under the normal form
    of [rel]: [getTemplate] finds a fragment for every name whose
    lower-case form is that normal form. *)
Theorem fragment_installed tm nf fs0 tm' fs' n pre info post (rel name : string) :
  normalize (directory tm) = directory tm ->
  loadTemplates tm nf fs0 = Done (tm', fs', None) ->
  Lstat fs0 (directory tm) = Some n ->
  visits (directory tm) (base (directory tm)) n
    = (pre ++ ((directory tm ++ "/" ++ rel)%string, info) :: post)%list ->
  IsDir info = false -> HasSuffix (Name info) ".html" = true ->
  HasPrefix (normalize rel) "static/" = false ->
  ToLower name = normalize rel ->
  is_Some (getTemplate tm' name).
Proof.
  intros Hd Hl Hn Hvis Hfile Hsuf Hns Hname.
  destruct (loadTemplates_Done _ _ _ _ _ _ Hl)
    as (_ & _ & [(_ & _ & [? [=]])|(_ & stf & Hwalk & _ & Hlist)]).
  rewrite (Walk_run _ _ _ _ _ Hn), Hvis in Hwalk.
  destruct (run_None_split _ _ _ _ _ _ _ _ Hfile Hwalk)
    as (st & st' & _ & Hw & Hpost).
  assert (Hst : HasPrefix (normalize (directory tm ++ "/" ++ rel))
                          (directory tm ++ "/static/") = false)
    by (by rewrite (normalize_below _ _ Hd), static_below).
  destruct (walkFn_registers _ _ _ _ _ _ Hfile Hsuf Hst Hw)
    as (tn & g & t & Hs & Hg & Ht).
  rewrite (normalize_below _ _ Hd), name_below in Hs. injection Hs as <-.
  destruct (run_keeps_name _ _ _ _ _ _ (normalize rel) Hpost) as (g' & Hg' & [t' Ht']);
    [by eauto|].
  unfold getTemplate. rewrite Hlist, Hg', Hname, Ht'. by eexists.
Qed.

End InstallFacts.

(** ** The page links in general *)

Section MoreHelperFacts.
Import Fmt Helpers.

Lemma wrap_small (z : Z) : - 2 ^ 63 <= z < 2 ^ 63 -> wrap z = z.
Proof. intros Hz. unfold wrap. rewrite Z.mod_small; lia. Qed.

Lemma page_item_link (curPage nPages : Z) (url : string) (i : Z) (result : string) :
  page_item curPage nPages url i result =
  result ++ concat_all (page_link curPage url <$>
                        filter (fun i => 0 < i <= nPages) [i]).
Proof.
  unfold page_item, page_link. rewrite filter_cons, filter_nil.
  destruct (decide (0 < i <= nPages)) as [Hi|Hi].
  - replace ((0 <? i) && (i <=? nPages)) with true
      by (symmetry; apply andb_true_iff; split; [apply Z.ltb_lt | apply Z.leb_le]; lia).
    simpl. rewrite append_nil_r. by destruct (i =? curPage).
  - replace ((0 <? i) && (i <=? nPages)) with false.
    + simpl. by rewrite append_nil_r.
    + symmetry. apply andb_false_iff.
      destruct (Z.ltb_spec 0 i); [|by left]. right. apply Z.leb_gt. lia.
Qed.

Lemma concat_all_app (l k : list string) :
  concat_all (l ++ k)%list = concat_all l ++ concat_all k.
Proof.
  induction l as [|s l IH]; [by rewrite append_nil_l|].
  simpl. by rewrite IH, append_assoc.
Qed.

(** The loop writes the links of the pages of its range that exist, in
    rising order. *)
Lemma page_loop_links (n : nat) (curPage nPages : Z) (url : string) :
  forall i result,
    page_loop n curPage nPages url i result =
    result ++ concat_all (page_link curPage url <$>
                          filter (fun i => 0 < i <= nPages) (seqZ i (Z.of_nat n))).
Proof.
  induction n as [|n IH]; intros i result.
  - simpl. by rewrite append_nil_r.
  - change (page_loop (S n) curPage nPages url i result)
      with (page_loop n curPage nPages url (i + 1)
                      (page_item curPage nPages url i result)).
    rewrite IH, page_item_link, (seqZ_cons i (Z.of_nat (S n))) by lia.
    replace (Z.pred (Z.of_nat (S n))) with (Z.of_nat n) by lia.
    replace (Z.succ i) with (i + 1) by lia.
    change (i :: seqZ (i + 1) (Z.of_nat n)) with ([i] ++ seqZ (i + 1) (Z.of_nat n))%list.
    by rewrite filter_app, fmap_app, concat_all_app, append_assoc.
Qed.

(** X16. With at least two pages ([curPage] and [offset] far from the
    limits of [int]), [paginate] yields, in this order: the opening tag;
    the first and previous links when [curPage] is above 1; an ellipsis
    when the window starts above page 1; one link for every page from
    [curPage - offset] to [curPage + offset] that lies in [1..nPages], in
    rising order, the one of [curPage] marked active; an ellipsis when the
    window ends below [nPages]; the next and last links unless [curPage]
    is [nPages]; the closing tag. The pages linked are the pages of
    [1..nPages] within [offset] of [curPage], each once. *)
Theorem paginate_shape (curPage nPages offset : Z) (url : string) :
  2 <= nPages -> 0 <= offset < 2 ^ 62 -> - 2 ^ 62 <= curPage < 2 ^ 62 ->
  paginate curPage nPages offset url =
  "<ul class='pagination'>" ++
  (if 1 <? curPage then
     Sprintf ("<li><a href='%s/page/first'>&laquo;First</a></li>" ++
              "<li><a href='%[1]s/page/%d'>&laquo;</a></li>")
             [AStr url; AInt (curPage - 1)]
   else "") ++
  (if 1 <? curPage - offset then "<li><span>...</span></li>" else "") ++
  concat_all (page_link curPage url <$> pages_shown curPage nPages offset) ++
  (if curPage + offset <? nPages then "<li><span>...</span></li>" else "") ++
  (if curPage =? nPages then ""
   else Sprintf ("<li><a href='%s/page/%d'>&raquo;</a></li>" ++
                 "<li><a href='%[1]s/page/last'>Last&raquo;</a></li>")
                [AStr url; AInt (curPage + 1)]) ++
  "</ul>" /\
  (forall i, i ∈ pages_shown curPage nPages offset <->
             1 <= i <= nPages /\ curPage - offset <= i <= curPage + offset) /\
  NoDup (pages_shown curPage nPages offset).
Proof.
  intros Hn Ho Hc. split; [|split].
  2: { intros i. unfold pages_shown. rewrite list_elem_of_filter, elem_of_seqZ. lia. }
  2: { apply NoDup_filter, NoDup_seqZ. }
  unfold paginate, pages_shown.
  destruct (Z.ltb_spec nPages 2); [lia|].
  rewrite !(wrap_small (curPage - 1)), !(wrap_small (curPage + 1)),
    !(wrap_small (curPage - offset)), !(wrap_small (curPage + offset)) by lia.
  rewrite (wrap_small (curPage + offset + 1)) by lia.
  rewrite page_loop_links.
  replace (Z.of_nat (Z.to_nat (curPage + offset + 1 - (curPage - offset))))
    with (2 * offset + 1) by lia.
  rewrite !Z.gtb_ltb.
  destruct (1 <? curPage), (1 <? curPage - offset), (curPage + offset <? nPages),
    (curPage =? nPages); cbn [negb];
    rewrite ?append_nil_l, ?append_nil_r, ?append_assoc; reflexivity.
Qed.

End MoreHelperFacts.

(** ** The pipeline on the small site *)

Import GoStrings Fmt Reflect Hooks FS Template Toy Site.

Example newTemplateManager_Views : newTemplateManager 1%nat "Views" = Done tm0.
Proof. vm_compute. reflexivity. Qed.

(** [AddHook] takes a function of a defined type for the BEFORE_RENDER
    hook; the type assertion of [RenderTemplate] does not. *)
Example defined_type_handler :
  AssignableTo (dtype named_handler) sigBeforeRender = true /\
  asBeforeRender (Some named_handler) = Panic "interface conversion".
Proof. split; reflexivity. Qed.

(** C5 does not hold of the code for a handler that is a function of a
    defined type whose underlying type is the one of the BEFORE_RENDER
    hook: [AddHook] attaches it and returns nil, its type being assignable
    to the signature, and [RenderTemplate], which finds the fragment,
    panics in the type assertion, so that no handler is called and the
    fragment is not executed. *)
Theorem RenderTemplate_defined_type_panics :
  AddHook (tm_hooks tm1) TmBeforeRender (Some named_handler)
    = Done (defined_attached, None) /\
  getHooks (tm_hooks tm3) TmBeforeRender = [Some named_handler] /\
  snd <$> getTemplate tm3 "index.html" = Some "<p>index</p>" /\
  RenderTemplate tm3 () "index.html" ∅ = Panic "interface conversion".
Proof. repeat split; vm_compute; reflexivity. Qed.

(** C1, as stated, fails: the output of [static/x/y.html] is not written
    to [static/x/_y.html] but to [_static/x/y.html]. *)
Lemma static_sibling_counterexample :
  exists tm' fs',
    loadTemplates tm0 quiet site = Done (tm', fs', None) /\
    ReadFile site "views/static/x/y.html" = inl "hello" /\
    ReadFile fs' "views/static/x/_y.html"
      = inr (PathError "open" "views/static/x/_y.html") /\
    ReadFile fs' "views/_static/x/y.html" = inl "hello".
Proof.
  let r := eval vm_compute in (loadTemplates tm0 quiet site) in
  match r with
  | Done (?a, ?b, _) => exists a, b
  end.
  repeat split; vm_compute; reflexivity.
Qed.

Lemma static_fragment_emitted_witness :
  exists tm' fs',
    loadTemplates tm0 quiet site = Done (tm', fs', None) /\
    exists d, ReadFile fs' "views/_static/x/y.html" = inl d.
Proof.
  let r := eval vm_compute in (loadTemplates tm0 quiet site) in
  match r with
  | Done (?a, ?b, _) => exists a, b
  end.
  match goal with
  | |- ?L = ?R /\ _ => assert (Hload : L = R) by (vm_compute; reflexivity)
  end.
  split; [exact Hload|].
  destruct (proj1 (static_fragment_emitted tm0 quiet site) _ _
              (Dir [("a", Dir [("b.html", File "<b>{{.}}</b>")]);
                    ("index.html", File "<p>index</p>");
                    ("static", Dir [("x", Dir [("y.html", File "hello")])])])
              [("views", {| Name := "views"; IsDir := true |});
               ("views/a", {| Name := "a"; IsDir := true |});
               ("views/a/b.html", {| Name := "b.html"; IsDir := false |});
               ("views/index.html", {| Name := "index.html"; IsDir := false |});
               ("views/static", {| Name := "static"; IsDir := true |});
               ("views/static/x", {| Name := "x"; IsDir := true |})]
              "views/static/x/y.html" {| Name := "y.html"; IsDir := false |} []
              "x/y.html" Hload eq_refl eq_refl eq_refl eq_refl eq_refl eq_refl)
    as (_ & _ & _ & _ & _ & _ & _ & _ & _ & _ & _ & Hd).
  exact Hd.
Defined.

(** A second compilation leaves the tree as the first has left it. *)
Example second_compilation :
  exists tm' fs' tm'',
    loadTemplates tm0 quiet site = Done (tm', fs', None) /\
    loadTemplates tm' quiet fs' = Done (tm'', fs', None).
Proof.
  let r := eval vm_compute in (loadTemplates tm0 quiet site) in
  match r with
  | Done (?a, ?b, _) =>
      let r2 := eval vm_compute in (loadTemplates a quiet b) in
      match r2 with
      | Done (?c, _, _) => exists a, b, c
      end
  end.
  split; vm_compute; reflexivity.
Qed.

Lemma loadTemplates_swap_witness :
  exists tm' fs',
    loadTemplates tm1 quiet broken
      = Done (tm', fs', Some (ParseError "unclosed action")) /\
    tmplList tm' = tmplList tm1 /\
    snd <$> getTemplate tm' "index.html" = Some "<p>index</p>".
Proof.
  pose proof (loadTemplates_swap tm1 quiet broken) as (Hkeep & _ & Hfirst).
  destruct (Hfirst
              (Dir [("a", Dir [("b.html", File "<b>{{.}}</b>")]);
                    ("index.html", File "<p>{{index</p>");
                    ("static", Dir [("x", Dir [("y.html", File "hello")])])])
              [("views", {| Name := "views"; IsDir := true |});
               ("views/a", {| Name := "a"; IsDir := true |});
               ("views/a/b.html", {| Name := "b.html"; IsDir := false |})]
              "views/index.html" {| Name := "index.html"; IsDir := false |}
              [("views/static", {| Name := "static"; IsDir := true |});
               ("views/static/x", {| Name := "x"; IsDir := true |});
               ("views/static/x/y.html", {| Name := "y.html"; IsDir := false |})]
              {| fs := broken; watched := ["views"; "views/a"];
                 templates := Some {| funcs := builtinFuncs;
                                      set := {[ "a/b.html" := "<b>{{.}}</b>" ]} |};
                 staticTemplates := None |}
              (ParseError "unclosed action"))
    as (tm' & fs' & Hload & Hlist).
  - reflexivity.
  - reflexivity.
  - reflexivity.
  - vm_compute. reflexivity.
  - split; [reflexivity|]. split; [reflexivity|].
    right. exists "<p>{{index</p>", "index.html".
    split; [reflexivity|]. split; [reflexivity|].
    exists "<p>{{index</p>". split; vm_compute; reflexivity.
  - exists tm', fs'. split; [exact Hload|]. split; [exact Hlist|].
    rewrite (proj1 (proj2 (Hkeep _ _ _ Hload))). vm_compute. reflexivity.
Defined.

(** C3, as stated, fails: the fragment of [a/b.html] is registered under
    the normal form of [a\b.html], and [getTemplate] does not find it
    under that name. *)
Lemma getTemplate_backslash_counterexample :
  exists g t,
    tmplList tm1 = Some g /\
    set g !! normalize "a\b.html" = Some t /\
    getTemplate tm1 "a\b.html" = None.
Proof.
  let r := eval vm_compute in (tmplList tm1) in
  match r with
  | Some ?g => exists g
  end.
  exists "<b>{{.}}</b>". repeat split; vm_compute; reflexivity.
Qed.

Lemma getTemplate_lowercase_witness :
  exists g,
    tmplList tm1 = Some g /\
    snd <$> getTemplate tm1 "A/B.html" = set g !! "a/b.html" /\
    set g !! "a/b.html" = Some "<b>{{.}}</b>".
Proof.
  let r := eval vm_compute in (tmplList tm1) in
  match r with
  | Some ?g => exists g
  end.
  match goal with
  | |- ?L = ?R /\ _ => assert (Hg : L = R) by (vm_compute; reflexivity)
  end.
  split; [exact Hg|]. split.
  - exact (proj1 (getTemplate_lowercase tm1 "A/B.html") _ Hg).
  - vm_compute. reflexivity.
Defined.

Lemma AddHook_checked_witness :
  AddHook (tm_hooks tm0) TmBeforeRender (Some an_int)
    = Done (tm_hooks tm0, Some ErrHookInvalidHandler) /\
  AddHook (tm_hooks tm0) 7 set_user
    = Done (tm_hooks tm0, Some ErrHookUnknownID) /\
  exists h',
    AddHook (tm_hooks tm0) TmBeforeRender set_user = Done (h', None) /\
    getHooks h' TmBeforeRender
      = (getHooks (tm_hooks tm0) TmBeforeRender ++ [set_user])%list.
Proof.
  pose proof (AddHook_checked (tm_hooks tm0) TmBeforeRender) as (_ & Hbad & Hok).
  pose proof (AddHook_checked (tm_hooks tm0) 7) as (Hunknown & _).
  split; [|split].
  - apply (Hbad {| signiture := sigBeforeRender; handler := [] |} an_int);
      reflexivity.
  - apply Hunknown. reflexivity.
  - destruct (Hok {| signiture := sigBeforeRender; handler := [] |}
                  {| dtype := sigBeforeRender;
                     dval := RenderFn (fun _ _ _ args => <["user" := "ann"]> args) |}
                  eq_refl eq_refl) as (h' & Hadd & Hget & _).
    exists h'. split; [exact Hadd | exact Hget].
Defined.

Lemma attached_two_handlers :
  attached (tm_hooks tm0)
           [(TmBeforeRender, set_user); (TmBeforeRender, set_title)]
           two_handlers.
Proof.
  eapply attached_cons; [vm_compute; reflexivity|].
  eapply attached_cons; [vm_compute; reflexivity|].
  vm_compute. apply attached_nil.
Qed.

Lemma getHooks_attach_order_witness :
  getHooks two_handlers TmBeforeRender = [set_user; set_title].
Proof.
  exact (proj1 (getHooks_attach_order (tm_hooks tm0) TmBeforeRender)
           [(TmBeforeRender, set_user); (TmBeforeRender, set_title)]
           two_handlers
           (ex_intro _ {| signiture := sigBeforeRender; handler := [] |} eq_refl)
           attached_two_handlers).
Defined.

(** The two handlers are fired in the order in which they were attached,
    the second seeing what the first has put into the argument map, and
    the fragment is executed on the map they leave. *)
Lemma RenderTemplate_two_handlers :
  exists g,
    RenderTemplate tm2 () "Index.html" ∅ =
    Done ([Fired set_user () 1%nat "<p>index</p>" ∅;
           Fired set_title () 1%nat "<p>index</p>" {[ "user" := "ann" ]};
           Executed "<p>index</p>"
                    (<["title" := "ann"]> {[ "user" := "ann" ]})
                    (Execute (set g) "<p>index</p>"
                       (Some (<["title" := "ann"]> {[ "user" := "ann" ]}))).1],
          (Execute (set g) "<p>index</p>"
             (Some (<["title" := "ann"]> {[ "user" := "ann" ]}))).1,
          None).
Proof.
  exists {| funcs := builtinFuncs;
            set := {[ "a/b.html" := "<b>{{.}}</b>"; "index.html" := "<p>index</p>" ]} |}.
  assert (Hget : getTemplate tm2 "Index.html"
                 = Some ({| funcs := builtinFuncs;
                            set := {[ "a/b.html" := "<b>{{.}}</b>";
                                      "index.html" := "<p>index</p>" ]} |},
                         "<p>index</p>"))
    by (vm_compute; reflexivity).
  assert (Hhs : getHooks (tm_hooks tm2) TmBeforeRender = [set_user; set_title])
    by (vm_compute; reflexivity).
  assert (Hty : Forall (fun hook => exists f, asBeforeRender hook = Done f)
                  (getHooks (tm_hooks tm2) TmBeforeRender)).
  { rewrite Hhs. repeat constructor; eexists; reflexivity. }
  pose proof (RenderTemplate_order tm2 () "Index.html" ∅) as HR.
  destruct HR as (_ & _ & HR).
  specialize (HR _ _ Hget Hty).
  destruct HR as (evs & args' & Hfired & Heq).
  apply (fired_fire_render _ _ _ _ _ _ _ []) in Hfired.
  assert (Hrun : fire_render (getHooks (tm_hooks tm2) TmBeforeRender) ()
                   (self tm2) "<p>index</p>" ∅ []
                 = Done (<["title" := "ann"]> {[ "user" := "ann" ]},
                         [Fired set_user () 1%nat "<p>index</p>" ∅;
                          Fired set_title () 1%nat "<p>index</p>" {[ "user" := "ann" ]}]))
    by (vm_compute; reflexivity).
  rewrite Hrun in Hfired.
  injection Hfired as <- <-.
  exact Heq.
Defined.

Lemma registerHook_checked_witness :
  exists h', registerHook (V := unit) {| hlist := None |} 3
               (Some {| tname := None; tkind := Func; tunder := "func()"; tmethods := [] |})
             = Done (h', None) /\
    getHooks h' 3 = [].
Proof.
  destruct (proj2 (proj2 (registerHook_checked (V := unit) {| hlist := None |} 3))
              {| tname := None; tkind := Func; tunder := "func()"; tmethods := [] |}
              eq_refl eq_refl) as (h' & Hr & _ & Hg & _).
  exists h'. split; [exact Hr | exact Hg].
Defined.

Lemma calls_to_two_handlers : rtc call (tm_hooks tm0) two_handlers.
Proof.
  eapply rtc_l; [eapply (call_add _ TmBeforeRender set_user); vm_compute; reflexivity|].
  eapply rtc_l; [eapply (call_add _ TmBeforeRender set_title); vm_compute; reflexivity|].
  vm_compute. apply rtc_refl.
Qed.

Lemma calls_from_zero : rtc call {| hlist := None |} (tm_hooks tm0).
Proof.
  eapply rtc_l;
    [eapply (call_register _ TmBeforeParse (Some sigBeforeParse));
     vm_compute; reflexivity|].
  eapply rtc_l;
    [eapply (call_register _ TmBeforeRender (Some sigBeforeRender));
     vm_compute; reflexivity|].
  vm_compute. apply rtc_refl.
Qed.

Lemma calls_keep_hooks_witness :
  exists hk', find two_handlers TmBeforeRender = Some hk' /\
    signiture hk' = sigBeforeRender /\ [] `prefix_of` handler hk'.
Proof.
  exact (calls_keep_hooks (tm_hooks tm0) two_handlers TmBeforeRender
           {| signiture := sigBeforeRender; handler := [] |}
           calls_to_two_handlers eq_refl).
Defined.

Lemma calls_well_typed_witness : well_typed two_handlers.
Proof.
  apply calls_well_typed. etrans; [exact calls_from_zero | exact calls_to_two_handlers].
Defined.

Lemma lookup_ignores_case_witness :
  getTemplate tm1 "INDEX.html" = getTemplate tm1 "index.HTML".
Proof.
  exact (proj1 (proj1 (lookup_ignores_case tm1 "INDEX.html" "index.HTML") eq_refl)).
Defined.

Lemma assignable_is_not_identical_witness :
  RenderTemplate tm3 () "index.html" ∅ = Panic "interface conversion".
Proof.
  assert (Hget : getTemplate tm3 "index.html"
                 = Some ({| funcs := builtinFuncs;
                            set := {[ "a/b.html" := "<b>{{.}}</b>";
                                      "index.html" := "<p>index</p>" ]} |},
                         "<p>index</p>"))
    by (vm_compute; reflexivity).
  assert (Hhs : getHooks (tm_hooks tm3) TmBeforeRender
                = ([] ++ Some named_handler :: [])%list)
    by (vm_compute; reflexivity).
  apply (proj2 (assignable_is_not_identical tm3) () "index.html" ∅ _ _ [] named_handler []
           Hget Hhs (List.Forall_nil _)).
  discriminate.
Defined.

Lemma loadTemplates_frame_witness :
  exists tm' fs' ret,
    loadTemplates tm0 quiet site = Done (tm', fs', ret) /\
    tm_hooks tm' = tm_hooks tm0 /\ keeps_files site fs'.
Proof.
  destruct (loadTemplates tm0 quiet site) as [[[tm' fs'] ret]|] eqn:Hload;
    [|vm_compute in Hload; discriminate Hload].
  exists tm', fs', ret. split; [reflexivity|].
  destruct (proj1 (loadTemplates_frame tm0 quiet site) _ _ _ Hload)
    as (_ & Hh & _ & _ & Hk).
  split; [exact Hh | exact Hk].
Defined.

Lemma site_compiled :
  exists fs', loadTemplates tm0 quiet site = Done (tm1, fs', None).
Proof.
  unfold tm1.
  destruct (loadTemplates tm0 quiet site) as [[[tm' fs'] [e|]]|] eqn:Hl;
    [vm_compute in Hl; discriminate Hl | by exists fs'
    | vm_compute in Hl; discriminate Hl].
Qed.

Lemma AddTmplFunc_next_compile_witness :
  funcs <$> tmplList tm1 = Some builtinFuncs.
Proof.
  destruct site_compiled as (fs' & Hl).
  destruct (tmplList tm1) as [g|] eqn:Hg; [|vm_compute in Hg; discriminate Hg].
  simpl. f_equal.
  exact (proj1 (AddTmplFunc_next_compile tm0 "upper") quiet site tm1 fs' g Hl Hg).
Defined.

Lemma loadTemplates_watches_witness :
  watcher tm1 = Some ["views"; "views/a"; "views/static"; "views/static/x"].
Proof.
  destruct site_compiled as (fs' & Hl).
  rewrite (loadTemplates_watches tm0 quiet site tm1 fs'
             (Dir [("a", Dir [("b.html", File "<b>{{.}}</b>")]);
                   ("index.html", File "<p>index</p>");
                   ("static", Dir [("x", Dir [("y.html", File "hello")])])])
             Hl eq_refl).
  vm_compute. reflexivity.
Defined.


Lemma fragment_installed_witness : is_Some (getTemplate tm1 "A/B.html").
Proof.
  destruct site_compiled as (fs' & Hl).
  exact (fragment_installed tm0 quiet site tm1 fs'
           (Dir [("a", Dir [("b.html", File "<b>{{.}}</b>")]);
                 ("index.html", File "<p>index</p>");
                 ("static", Dir [("x", Dir [("y.html", File "hello")])])])
           [("views", {| Name := "views"; IsDir := true |});
            ("views/a", {| Name := "a"; IsDir := true |})]
           {| Name := "b.html"; IsDir := false |}
           [("views/index.html", {| Name := "index.html"; IsDir := false |});
            ("views/static", {| Name := "static"; IsDir := true |});
            ("views/static/x", {| Name := "x"; IsDir := true |});
            ("views/static/x/y.html", {| Name := "y.html"; IsDir := false |})]
           "a/b.html" "A/B.html" eq_refl Hl eq_refl eq_refl eq_refl eq_refl eq_refl
           eq_refl).
Defined.

Lemma paginate_shape_witness :
  Helpers.paginate 1 2 1 "/blog" =
  "<ul class='pagination'><li class='active'><a href='/blog/page/1'>1</a></li><li><a href='/blog/page/2'>2</a></li><li><a href='/blog/page/2'>&raquo;</a></li><li><a href='/blog/page/last'>Last&raquo;</a></li></ul>".
Proof.
  rewrite (proj1 (paginate_shape 1 2 1 "/blog" ltac:(lia) ltac:(lia) ltac:(lia))).
  vm_compute. reflexivity.
Defined.
